(** * CCQA closed-book processing: markup normalisation and record aggregation

    A shallow embedding of [closed_book_processing.py] and the properties of
    its text normaliser ([extract_text]), its per-file aggregator
    ([generate_closed_book_format]) and its driver ([main]).

    Python strings are sequences of Unicode code points, JSON objects and the
    output dictionary are finite maps, and every Python exception the code
    lets escape is an explicit error result. *)

From Stdlib Require Import NArith ZArith String Ascii List Bool Lia.
From Stdlib Require Import Decimal Hexadecimal DecimalN DecimalFacts.
From stdpp Require Import gmap list.

Set Warnings "-register-all".

Local Open Scope N_scope.

(** ** Python strings *)

(** A [str] is the list of its code points. *)
Abbreviation str := (list N) (only parsing).

(** String literals of the source, written as Rocq strings. *)
Definition lit (s : string) : str :=
  List.map N_of_ascii (list_ascii_of_string s).

Definition LF : N := 10.
Definition CR : N := 13.
Definition SPACE : N := 32.
Definition HASH : N := 35.
Definition AMP : N := 38.
Definition SEMI : N := 59.

(** [s.replace(c, "")] for a one-character [c]. *)
Definition remove_char (c : N) (s : str) : str :=
  List.filter (fun x => negb (x =? c)) s.

(** Line 21: [s.replace("\n", "").replace("\r", "")]. *)
Definition strip_newlines (s : str) : str :=
  remove_char CR (remove_char LF s).

(** [sep.join(parts)]. *)
Fixpoint join (sep : str) (parts : list str) : str :=
  match parts with
  | [] => []
  | [p] => p
  | p :: ps => p ++ sep ++ join sep ps
  end.

(** [re.sub(" +", " ", s)]: every maximal run of spaces becomes one space.
    A space that is followed by another space is dropped, so exactly the last
    space of each run is kept. *)
Fixpoint collapse_spaces (s : str) : str :=
  match s with
  | [] => []
  | c :: s' =>
      if c =? SPACE then
        match s' with
        | c' :: _ => if c' =? SPACE then collapse_spaces s'
                     else SPACE :: collapse_spaces s'
        | [] => [SPACE]
        end
      else c :: collapse_spaces s'
  end.

(** No two spaces in a row. *)
Fixpoint no_space_run (s : str) : Prop :=
  match s with
  | a :: (b :: _) as s' => ~ (a = SPACE /\ b = SPACE) /\ no_space_run s'
  | _ => True
  end.

(** Truthiness of a string: [bool(s)], also [len(s) > 0]. *)
Definition nonempty {A} (l : list A) : bool :=
  match l with [] => false | _ => true end.

(** ** Exceptions and results *)

(** The exceptions that can leave the functions below.  [LibraryError] stands
    for whatever a library call ([json.loads], [etree.HTML]) raises. *)
Inductive exn : Type :=
| KeyError (key : str)
| TypeError
| ValueError
| AttributeError (name : str)
| AssertionError
| FileExistsError
| LibraryError (code : N).

Inductive result (A : Type) : Type :=
| Ok (a : A)
| Raise (e : exn).
Arguments Ok {A} a.
Arguments Raise {A} e.

#[export] Instance result_ret : MRet result := fun A a => Ok a.
#[export] Instance result_bind : MBind result := fun A B f m =>
  match m with
  | Ok a => f a
  | Raise e => Raise e
  end.

(** ** Decimal and hexadecimal numerals *)

Fixpoint chars_of_uint (d : Decimal.uint) : str :=
  match d with
  | Decimal.Nil => []
  | Decimal.D0 d => 48 :: chars_of_uint d
  | Decimal.D1 d => 49 :: chars_of_uint d
  | Decimal.D2 d => 50 :: chars_of_uint d
  | Decimal.D3 d => 51 :: chars_of_uint d
  | Decimal.D4 d => 52 :: chars_of_uint d
  | Decimal.D5 d => 53 :: chars_of_uint d
  | Decimal.D6 d => 54 :: chars_of_uint d
  | Decimal.D7 d => 55 :: chars_of_uint d
  | Decimal.D8 d => 56 :: chars_of_uint d
  | Decimal.D9 d => 57 :: chars_of_uint d
  end.

(** [str(n)] for a non-negative integer. *)
Definition str_of_int (n : N) : str := chars_of_uint (N.to_uint n).

Definition is_digit (c : N) : bool := (48 <=? c) && (c <=? 57).

Definition is_hexdigit (c : N) : bool :=
  is_digit c || ((65 <=? c) && (c <=? 70)) || ((97 <=? c) && (c <=? 102)).

Fixpoint uint_of_chars (s : str) : Decimal.uint :=
  match s with
  | [] => Decimal.Nil
  | c :: s' =>
      let d := uint_of_chars s' in
      match c with
      | 48 => Decimal.D0 d | 49 => Decimal.D1 d | 50 => Decimal.D2 d
      | 51 => Decimal.D3 d | 52 => Decimal.D4 d | 53 => Decimal.D5 d
      | 54 => Decimal.D6 d | 55 => Decimal.D7 d | 56 => Decimal.D8 d
      | 57 => Decimal.D9 d
      | _ => Decimal.Nil
      end
  end.

(** The greatest number of digits that [int] converts from a decimal
    string: the default of [sys.set_int_max_str_digits]. *)
Definition max_str_digits : nat := 4300.

(** [int(s)] on a string of ASCII digits (the only strings the character
    reference pattern lets through).  Every digit counts towards the cap,
    leading zeros too; beyond it [int] raises [ValueError]. *)
Definition int10 (s : str) : result N :=
  if (max_str_digits <? length s)%nat then Raise ValueError
  else Ok (N.of_uint (uint_of_chars s)).

Fixpoint hex_uint_of_chars (s : str) : Hexadecimal.uint :=
  match s with
  | [] => Hexadecimal.Nil
  | c :: s' =>
      let d := hex_uint_of_chars s' in
      match c with
      | 48 => Hexadecimal.D0 d | 49 => Hexadecimal.D1 d
      | 50 => Hexadecimal.D2 d | 51 => Hexadecimal.D3 d
      | 52 => Hexadecimal.D4 d | 53 => Hexadecimal.D5 d
      | 54 => Hexadecimal.D6 d | 55 => Hexadecimal.D7 d
      | 56 => Hexadecimal.D8 d | 57 => Hexadecimal.D9 d
      | 65 | 97 => Hexadecimal.Da d | 66 | 98 => Hexadecimal.Db d
      | 67 | 99 => Hexadecimal.Dc d | 68 | 100 => Hexadecimal.Dd d
      | 69 | 101 => Hexadecimal.De d | 70 | 102 => Hexadecimal.Df d
      | _ => Hexadecimal.Nil
      end
  end.

(** [int(s, 16)] on a string of hexadecimal digits; a base that is a power
    of two has no cap. *)
Definition int16 (s : str) : N := N.of_hex_uint (hex_uint_of_chars s).

(** ** [str.encode("ascii", "xmlcharrefreplace").decode("utf-8")]

    A code point below 128 is its own ASCII byte; any other becomes the bytes
    of its decimal character reference.  The bytes are all ASCII, so decoding
    them as UTF-8 gives the same characters back. *)
Definition xmlcharref (c : N) : str :=
  if c <? 128 then [c] else [AMP; HASH] ++ str_of_int c ++ [SEMI].

Definition xmlcharrefreplace (s : str) : str :=
  List.concat (List.map xmlcharref s).

(** ** [html.unescape] (CPython, [Lib/html/__init__.py])

    The standard-library function that [extract_text] calls on both of its
    paths.  Its table of named references, [html.entities.html5], is a
    parameter; everything else is the function's own algorithm. *)

(** [_invalid_charrefs]: numeric references that HTML5 remaps. *)
Definition invalid_charrefs (num : N) : option str :=
  match num with
  | 0x00 => Some [0xFFFD] | 0x0D => Some [CR]
  | 0x80 => Some [0x20AC] | 0x81 => Some [0x81]
  | 0x82 => Some [0x201A] | 0x83 => Some [0x0192]
  | 0x84 => Some [0x201E] | 0x85 => Some [0x2026]
  | 0x86 => Some [0x2020] | 0x87 => Some [0x2021]
  | 0x88 => Some [0x02C6] | 0x89 => Some [0x2030]
  | 0x8A => Some [0x0160] | 0x8B => Some [0x2039]
  | 0x8C => Some [0x0152] | 0x8D => Some [0x8D]
  | 0x8E => Some [0x017D] | 0x8F => Some [0x8F]
  | 0x90 => Some [0x90] | 0x91 => Some [0x2018]
  | 0x92 => Some [0x2019] | 0x93 => Some [0x201C]
  | 0x94 => Some [0x201D] | 0x95 => Some [0x2022]
  | 0x96 => Some [0x2013] | 0x97 => Some [0x2014]
  | 0x98 => Some [0x02DC] | 0x99 => Some [0x2122]
  | 0x9A => Some [0x0161] | 0x9B => Some [0x203A]
  | 0x9C => Some [0x0153] | 0x9D => Some [0x9D]
  | 0x9E => Some [0x017E] | 0x9F => Some [0x0178]
  | _ => None
  end.

(** [_invalid_codepoints]: the control characters and non-characters that a
    numeric reference may not name. *)
Definition invalid_codepoints_others : list N :=
  [ 0xB; 0xFFFE; 0xFFFF; 0x1FFFE; 0x1FFFF; 0x2FFFE; 0x2FFFF; 0x3FFFE; 0x3FFFF;
    0x4FFFE; 0x4FFFF; 0x5FFFE; 0x5FFFF; 0x6FFFE; 0x6FFFF; 0x7FFFE; 0x7FFFF;
    0x8FFFE; 0x8FFFF; 0x9FFFE; 0x9FFFF; 0xAFFFE; 0xAFFFF; 0xBFFFE; 0xBFFFF;
    0xCFFFE; 0xCFFFF; 0xDFFFE; 0xDFFFF; 0xEFFFE; 0xEFFFF; 0xFFFFE; 0xFFFFF;
    0x10FFFE; 0x10FFFF ].

Definition invalid_codepoint (num : N) : bool :=
  ((0x1 <=? num) && (num <=? 0x8))
  || ((0xE <=? num) && (num <=? 0x1F))
  || ((0x7F <=? num) && (num <=? 0x9F))
  || ((0xFDD0 <=? num) && (num <=? 0xFDEF))
  || List.existsb (N.eqb num) invalid_codepoints_others.

(** The numeric branch of [_replace_charref], after [num] has been read. *)
Definition replace_numeric (num : N) : str :=
  match invalid_charrefs num with
  | Some s => s
  | None =>
      if ((0xD800 <=? num) && (num <=? 0xDFFF)) || (0x10FFFF <? num)
      then [0xFFFD]
      else if invalid_codepoint num then []
      else [num]
  end.

(** [s.rstrip(";")]. *)
Fixpoint rstrip_semi (s : str) : str :=
  match s with
  | [] => []
  | c :: s' =>
      match rstrip_semi s' with
      | [] => if c =? SEMI then [] else [c]
      | r => c :: r
      end
  end.

(** Longest prefix of [l] whose elements satisfy [p], and the rest. *)
Fixpoint span {A} (p : A -> bool) (l : list A) : list A * list A :=
  match l with
  | [] => ([], [])
  | x :: l' =>
      if p x then let '(a, b) := span p l' in (x :: a, b) else ([], l)
  end.

(** The same with at most [n] elements in the prefix. *)
Fixpoint span_upto {A} (n : nat) (p : A -> bool) (l : list A)
  : list A * list A :=
  match n, l with
  | S n', x :: l' =>
      if p x then let '(a, b) := span_upto n' p l' in (x :: a, b)
      else ([], l)
  | _, _ => ([], l)
  end.

(** The class [[^\t\n\f <&#;]] of the pattern. *)
Definition is_name_char (c : N) : bool :=
  negb (List.existsb (N.eqb c) [9; 10; 12; SPACE; 60; AMP; HASH; SEMI]).

Definition is_xX (c : N) : bool := (c =? 120) || (c =? 88).

(** The optional [;] that ends each alternative of the pattern. *)
Definition opt_semi (rest : str) : str :=
  match rest with
  | c :: _ => if c =? SEMI then [SEMI] else []
  | [] => []
  end.

(** One match attempt of
    [&(#[0-9]+;?|#[xX][0-9a-fA-F]+;?|[^\t\n\f <&#;]{1,32};?)]
    right after an ampersand: [rest] is the text that follows the ampersand,
    the result is group 1 of the match.  The alternatives are tried in order
    and each quantifier is greedy; as nothing follows the optional [;], no
    backtracking into a quantifier can change the outcome. *)
Definition charref_match (rest : str) : option str :=
  match rest with
  | [] => None
  | c :: r1 =>
      if c =? HASH then
        let '(ds, r2) := span is_digit r1 in
        if nonempty ds then Some (HASH :: ds ++ opt_semi r2)
        else
          match r1 with
          | x :: r3 =>
              if is_xX x then
                let '(hs, r4) := span is_hexdigit r3 in
                if nonempty hs then Some (HASH :: x :: hs ++ opt_semi r4)
                else None
              else None
          | [] => None
          end
      else
        let '(ns, r2) := span_upto 32 is_name_char rest in
        if nonempty ns then Some (ns ++ opt_semi r2) else None
  end.

Section Unescape.

(** [html.entities.html5]: names (without the ampersand, most of them with
    their semicolon) to replacement text. *)
Variable html5 : str -> option str.

(** The [for x in range(len(s)-1, 1, -1)] loop of [_replace_charref]:
    the longest proper prefix of at least two characters that is a known
    name, else the reference is left as it was. *)
Fixpoint longest_prefix (s : str) (x : nat) : str :=
  match x with
  | S x' =>
      if (2 <=? x)%nat then
        match html5 (take x s) with
        | Some v => v ++ drop x s
        | None => longest_prefix s x'
        end
      else AMP :: s
  | O => AMP :: s
  end.

(** [_replace_charref], on group 1 of a match. *)
Definition replace_charref (s : str) : result str :=
  match s with
  | c :: s1 =>
      if c =? HASH then
        match s1 with
        | x :: s2 =>
            if is_xX x then Ok (replace_numeric (int16 (rstrip_semi s2)))
            else num ← int10 (rstrip_semi s1); Ok (replace_numeric num)
        | [] => num ← int10 []; Ok (replace_numeric num)
        end
      else
        match html5 s with
        | Some v => Ok v
        | None => Ok (longest_prefix s (length s - 1))
        end
  | [] => Ok [AMP]
  end.

(** [_charref.sub(_replace_charref, s)]: scan from the left; at an
    ampersand that starts a match, emit the replacement and resume after the
    match, else copy the character.  [skip] counts the characters of
    the current match that are still to be passed over.  An exception of
    [_replace_charref] ends the scan. *)
Fixpoint charref_sub (skip : nat) (s : str) : result str :=
  match s with
  | [] => Ok []
  | c :: s' =>
      match skip with
      | S k => charref_sub k s'
      | O =>
          if c =? AMP then
            match charref_match s' with
            | Some g =>
                r ← replace_charref g;
                rest ← charref_sub (length g) s';
                Ok (r ++ rest)
            | None => rest ← charref_sub 0 s'; Ok (c :: rest)
            end
          else rest ← charref_sub 0 s'; Ok (c :: rest)
      end
  end.

(** [html.unescape(s)]. *)
Definition html_unescape (s : str) : result str :=
  if List.existsb (N.eqb AMP) s then charref_sub 0 s else Ok s.

End Unescape.

(** The characters that come back unchanged from
    [html.unescape(c.encode("ascii", "xmlcharrefreplace").decode("utf-8"))]:
    an ASCII character other than the ampersand, and a character beyond ASCII
    whose numeric reference [_replace_charref] resolves to itself. *)
Definition survives (c : N) : bool :=
  if c <? 128 then negb (c =? AMP)
  else match replace_numeric c with
       | [c'] => c' =? c
       | _ => false
       end.

(** A small excerpt of [html.entities.html5], for examples. *)
Definition html5_excerpt (name : str) : option str :=
  if decide (name = lit "amp;") then Some [AMP]
  else if decide (name = lit "amp") then Some [AMP]
  else if decide (name = lit "lt;") then Some [60]
  else if decide (name = lit "lt") then Some [60]
  else if decide (name = lit "gt;") then Some [62]
  else if decide (name = lit "gt") then Some [62]
  else if decide (name = lit "eacute;") then Some [233]
  else if decide (name = lit "eacute") then Some [233]
  else if decide (name = lit "notin;") then Some [8713]
  else if decide (name = lit "not") then Some [172]
  else None.

(** ** JSON values, as [json.loads] builds them *)

Inductive json : Type :=
| JNull
| JBool (b : bool)
| JNum (mantissa exponent : Z)
| JStr (s : str)
| JArr (items : list json)
| JObj (fields : gmap str json).

(** [obj[key]]: only a dict can be indexed by a string. *)
Definition getitem (obj : json) (key : str) : result json :=
  match obj with
  | JObj fields =>
      match fields !! key with
      | Some v => Ok v
      | None => Raise (KeyError key)
      end
  | _ => Raise TypeError
  end.

(** [key in obj.keys()]: only a dict has [keys]. *)
Definition in_keys (key : str) (obj : json) : result bool :=
  match obj with
  | JObj fields => Ok (bool_decide (is_Some (fields !! key)))
  | _ => Raise (AttributeError (lit "keys"))
  end.

(** [for x in obj]: a list yields its items, a dict its keys, a string its
    characters; nothing else is iterable. *)
Definition iter (obj : json) : result (list json) :=
  match obj with
  | JArr items => Ok items
  | JObj fields => Ok (JStr <$> (map_to_list fields).*1)
  | JStr s => Ok ((fun c => JStr [c]) <$> s)
  | _ => Raise TypeError
  end.

(** [v != "en"]. *)
Definition ne_str (v : json) (s : str) : bool :=
  match v with
  | JStr s' => negb (bool_decide (s' = s))
  | _ => true
  end.

(** ** The text normaliser *)

(** What a call of [etree.HTML] does: it returns a root element, it returns
    [None], or it raises an exception of its own. *)
Inductive parsed (E : Type) : Type :=
| Root (root : E)
| NoRoot
| ParserRaises (code : N).
Arguments Root {E} root.
Arguments NoRoot {E}.
Arguments ParserRaises {E} code.

(** The libraries behind [extract_text] and the aggregator: [lxml.etree]
    with its element type, [Element.itertext()] as the list it yields and
    [etree.HTML]; the table [html.entities.html5]; and [json.loads]. *)
Class Libraries : Type := {
  Element : Type;
  itertext : Element -> list str;
  etree_HTML : str -> parsed Element;
  html5 : str -> option str;
  json_loads : str -> result json
}.

Section Normalizer.

Context {libs : Libraries}.

(** Lines 32 to 35: the text of a parsed fragment. *)
Definition tree_text (text_root : Element) : result str :=
  let text := join [SPACE] (itertext text_root) in
  let text := collapse_spaces text in
  let text := xmlcharrefreplace text in
  html_unescape html5 text.

(** [extract_text(input_text, keep_markup)]; [None] is Python's [None]. *)
Definition extract_text (input_text : str) (keep_markup : bool)
  : result (option str) :=
  let input_text := strip_newlines input_text in
  if keep_markup then
    text ← html_unescape html5 input_text;
    Ok (Some text)
  else
    match etree_HTML input_text with
    | ParserRaises code => Raise (LibraryError code)
    | NoRoot => Ok None
    | Root text_root => text ← tree_text text_root; Ok (Some text)
    end.

(** The same on a JSON value: the first [.replace] needs a string. *)
Definition extract_text_value (v : json) (keep_markup : bool)
  : result (option str) :=
  match v with
  | JStr s => extract_text s keep_markup
  | _ => Raise (AttributeError (lit "replace"))
  end.

(** ** The record aggregator *)

Section Aggregator.

Variable only_english : bool.
Variable keep_markup : bool.

(** Lines 59 to 62 and 64 to 67: one markup field of a question, with
    the text it adds to [question_text]. *)
Definition question_field (question : json) (field : str) (sep : str)
  : result str :=
  present ← in_keys field question;
  if present : bool then
    v ← getitem question field;
    extracted_text ← extract_text_value v keep_markup;
    match extracted_text with
    | Some t => Ok (t ++ sep)
    | None => Ok []
    end
  else Ok [].

(** A markup field that adds nothing: it is absent, or what it holds
    normalises to [None]. *)
Definition unusable_field (fields : gmap str json) (field : str) : Prop :=
  fields !! field = None
  \/ exists v, fields !! field = Some v
               /\ extract_text_value v keep_markup = Ok None.

(** Lines 56 to 67. *)
Definition build_question_text (question : json) : result str :=
  name ← question_field question (lit "name_markup") [SPACE];
  text ← question_field question (lit "text_markup") [];
  Ok (name ++ text).

(** Lines 71 to 79: one turn of the loop over the answers. *)
Definition answer_step (answer : json) (answer_list : list str)
  : result (list str) :=
  present ← in_keys (lit "text_markup") answer;
  answer_text ←
    (if present : bool then
       v ← getitem answer (lit "text_markup");
       extract_text_value v keep_markup
     else Ok None);
  match answer_text with
  | Some t => if nonempty t then Ok (answer_list ++ [t]) else Ok answer_list
  | None => Ok answer_list
  end.

Fixpoint answers_loop (answers : list json) (answer_list : list str)
  : result (list str) :=
  match answers with
  | [] => Ok answer_list
  | answer :: rest =>
      answer_list' ← answer_step answer answer_list;
      answers_loop rest answer_list'
  end.

(** Lines 69 to 79. *)
Definition collect_answers (question : json) (question_text : str)
  : result (list str) :=
  if (0 <? length question_text)%nat then
    answers ← getitem question (lit "Answers");
    items ← iter answers;
    answers_loop items []
  else Ok [].

(** Lines 56 to 82: one turn of the loop over the questions. *)
Definition question_step (question : json)
  (output : gmap str (list str)) : result (gmap str (list str)) :=
  question_text ← build_question_text question;
  answer_list ← collect_answers question question_text;
  if nonempty question_text && nonempty answer_list
  then Ok (<[question_text := answer_list]> output)
  else Ok output.

Fixpoint questions_loop (questions : list json)
  (output : gmap str (list str)) : result (gmap str (list str)) :=
  match questions with
  | [] => Ok output
  | question :: rest =>
      output' ← question_step question output;
      questions_loop rest output'
  end.

(** Lines 50 to 82: one record, already parsed. *)
Definition website_step (content : json)
  (output : gmap str (list str)) : result (gmap str (list str)) :=
  skip ←
    (if only_english then
       lang ← getitem content (lit "Fasttext_language");
       Ok (ne_str lang (lit "en"))
     else Ok false);
  if skip : bool then Ok output
  else
    questions ← getitem content (lit "Questions");
    items ← iter questions;
    questions_loop items output.

(** Lines 47 to 82: the loop over the lines of the input file. *)
Fixpoint lines_loop (fi : list str)
  (output : gmap str (list str)) : result (gmap str (list str)) :=
  match fi with
  | [] => Ok output
  | website :: rest =>
      content ← json_loads website;
      output' ← website_step content output;
      lines_loop rest output'
  end.

(** [generate_closed_book_format], from the lines of the input file to
    the dictionary that is dumped into the output file. *)
Definition generate_closed_book_format (fi : list str)
  : result (gmap str (list str)) :=
  lines_loop fi ∅.

(** *** The stores into [output]

    The loops above change [output] only at line 82.  The functions below
    follow the same loops and list the stores
    [output[question_text] = answer_list] in the order in which they
    happen. *)

Definition question_store (question : json)
  : result (option (str * list str)) :=
  question_text ← build_question_text question;
  answer_list ← collect_answers question question_text;
  if nonempty question_text && nonempty answer_list
  then Ok (Some (question_text, answer_list))
  else Ok None.

Fixpoint questions_stores (questions : list json)
  : result (list (str * list str)) :=
  match questions with
  | [] => Ok []
  | question :: rest =>
      w ← question_store question;
      ws ← questions_stores rest;
      Ok (match w with Some kv => kv :: ws | None => ws end)
  end.

Definition website_stores (content : json)
  : result (list (str * list str)) :=
  skip ←
    (if only_english then
       lang ← getitem content (lit "Fasttext_language");
       Ok (ne_str lang (lit "en"))
     else Ok false);
  if skip : bool then Ok []
  else
    questions ← getitem content (lit "Questions");
    items ← iter questions;
    questions_stores items.

Fixpoint lines_stores (fi : list str) : result (list (str * list str)) :=
  match fi with
  | [] => Ok []
  | website :: rest =>
      content ← json_loads website;
      ws ← website_stores content;
      ws' ← lines_stores rest;
      Ok (ws ++ ws')
  end.

End Aggregator.

End Normalizer.

(** The dictionary after a sequence of stores. *)
Definition apply_stores (ws : list (str * list str))
  (output : gmap str (list str)) : gmap str (list str) :=
  foldl (fun o kv => <[kv.1 := kv.2]> o) output ws.

(** What line 81 lets through: a non-empty key with a non-empty list. *)
Definition proper_store (kv : str * list str) : Prop :=
  kv.1 <> [] /\ kv.2 <> [].

(** Two records that differ at most in their language tag: the same value,
    or two objects that agree on every key other than [Fasttext_language]. *)
Definition same_but_language (c1 c2 : json) : Prop :=
  match c1, c2 with
  | JObj f1, JObj f2 =>
      delete (lit "Fasttext_language") f1 = delete (lit "Fasttext_language") f2
  | _, _ => c1 = c2
  end.

(** The same for two lines, through their parse. *)
Definition same_line_but_language (json_loads : str -> result json)
  (l1 l2 : str) : Prop :=
  match json_loads l1, json_loads l2 with
  | Ok c1, Ok c2 => same_but_language c1 c2
  | Raise e1, Raise e2 => e1 = e2
  | _, _ => False
  end.

(** ** The driver *)

(** Values of the attributes of an [argparse.Namespace]. *)
Inductive value : Type :=
| VNone
| VStr (s : str)
| VBool (b : bool)
| VInt (z : Z).

(** [parser.parse_args()]: the namespace has one attribute per declared
    option, named after it, and no other.  The two folders are [None] when
    their option is not given. *)
Definition parse_args (input_folder output_folder : value)
  (only_english keep_markup : bool) (num_workers : Z) : gmap str value :=
  <[lit "input_folder" := input_folder]>
  (<[lit "output_folder" := output_folder]>
  (<[lit "only_english" := VBool only_english]>
  (<[lit "keep_markup" := VBool keep_markup]>
  (<[lit "num_workers" := VInt num_workers]> ∅)))).

(** [args.name]. *)
Definition getattr (args : gmap str value) (name : str) : result value :=
  match args !! name with
  | Some v => Ok v
  | None => Raise (AttributeError name)
  end.

Definition truthy (v : value) : bool :=
  match v with
  | VNone => false
  | VStr s => nonempty s
  | VBool b => b
  | VInt z => negb (z =? 0)%Z
  end.

(** The file system and the calls made on it; [Pool(num_workers)], which
    rejects a number of processes below one; and [pool.map], which hands
    the tasks to the workers in chunks and raises when a task has raised. *)
Class System : Type := {
  FS : Type;
  os_path_isdir : FS -> value -> result bool;
  os_makedirs : FS -> value -> result FS;
  os_listdir : FS -> value -> result (list str);
  os_path_join : value -> str -> result value;
  read_lines : FS -> value -> result (list str);
  json_dump : FS -> value -> gmap str (list str) -> result FS;
  Pool : value -> result unit;
  pool_map : (value * value -> FS -> result unit * FS) ->
             list (value * value) -> FS -> result unit * FS
}.

Section Driver.

Context {libs : Libraries} {sys : System}.

(** A computation that may raise and that leaves a file system behind
    either way. *)
Definition io (A : Type) : Type := FS -> result A * FS.

Definition io_ret {A} (a : A) : io A := fun fs => (Ok a, fs).

Definition io_bind {A B} (m : io A) (f : A -> io B) : io B := fun fs =>
  match m fs with
  | (Ok a, fs') => f a fs'
  | (Raise e, fs') => (Raise e, fs')
  end.

(** A call that only reads the file system, or fails without effect. *)
Definition io_read {A} (f : FS -> result A) : io A := fun fs => (f fs, fs).

(** A call that changes the file system when it succeeds. *)
Definition io_write (f : FS -> result FS) : io unit := fun fs =>
  match f fs with
  | Ok fs' => (Ok tt, fs')
  | Raise e => (Raise e, fs)
  end.

Definition io_assert (b : bool) : io unit :=
  io_read (fun _ => if b then Ok tt else Raise AssertionError).

#[local] Instance io_mret : MRet io := @io_ret.
#[local] Instance io_mbind : MBind io := fun A B f m => io_bind m f.

(** The worker: [generate_closed_book_format] with its two files. *)
Definition worker (only_english keep_markup : bool) (paths : value * value)
  : io unit :=
  let '(input_path, output_path) := paths in
  fi ← io_read (fun fs => read_lines fs input_path);
  output ← io_read (fun _ =>
    generate_closed_book_format only_english keep_markup fi);
  io_write (fun fs => json_dump fs output_path output).

(** Lines 95 to 100: the list of tasks. *)
Fixpoint task_list (args : gmap str value) (filenames : list str)
  : result (list (value * value)) :=
  match filenames with
  | [] => Ok []
  | filename :: rest =>
      input_folder ← getattr args (lit "input_folder");
      i ← os_path_join input_folder filename;
      output_folder ← getattr args (lit "output_folder");
      o ← os_path_join output_folder filename;
      files ← task_list args rest;
      Ok ((i, o) :: files)
  end.

(** [main(args)]. *)
Definition main (args : gmap str value) : io unit :=
  input_folder ← io_read (fun _ => getattr args (lit "input_folder"));
  is_dir ← io_read (fun fs => os_path_isdir fs input_folder);
  _ ← io_assert is_dir;
  output_folder ← io_read (fun _ => getattr args (lit "output_folder"));
  is_dir ← io_read (fun fs => os_path_isdir fs output_folder);
  _ ← io_assert (negb is_dir);
  output_folder ← io_read (fun _ => getattr args (lit "output_folder"));
  _ ← io_write (fun fs => os_makedirs fs output_folder);
  data_folder ← io_read (fun _ => getattr args (lit "data_folder"));
  filenames ← io_read (fun fs => os_listdir fs data_folder);
  files ← io_read (fun _ => task_list args filenames);
  num_workers ← io_read (fun _ => getattr args (lit "num_workers"));
  _ ← io_read (fun _ => Pool num_workers);
  only_english ← io_read (fun _ => getattr args (lit "only_english"));
  keep_markup ← io_read (fun _ => getattr args (lit "keep_markup"));
  pool_map (worker (truthy only_english) (truthy keep_markup)) files.

End Driver.

(** ** Reference instances of the library interfaces

    Small stand-ins for the libraries, used to run the definitions on
    concrete inputs. *)

(** A parser for fragments that are plain text: no tree for empty input,
    else one text node holding the input. *)
Definition plain_HTML (s : str) : parsed (list str) :=
  match s with
  | [] => NoRoot
  | _ => Root [s]
  end.

(** A parser for a fixed corpus of fragments: each comes with the text
    nodes of its tree; anything else has no tree. *)
Definition corpus_HTML (corpus : list (str * list str)) (s : str)
  : parsed (list str) :=
  match List.find (fun e => bool_decide (e.1 = s)) corpus with
  | Some e => Root e.2
  | None => NoRoot
  end.

(** A [json.loads] for a fixed corpus of lines; any other line is
    malformed. *)
Definition corpus_loads (corpus : list (str * json)) (line : str)
  : result json :=
  match List.find (fun e => bool_decide (e.1 = line)) corpus with
  | Some e => Ok e.2
  | None => Raise (LibraryError 0)
  end.

(** An answer, a question and a website record with the given fields. *)
Definition mk_answer (text_markup : str) : json :=
  JObj {[ lit "text_markup" := JStr text_markup ]}.

Definition mk_question (fields : list (str * json)) (answers : list json)
  : json :=
  JObj (<[lit "Answers" := JArr answers]> (list_to_map fields)).

Definition mk_website (lang : str) (questions : list json) : json :=
  JObj (<[lit "Fasttext_language" := JStr lang]>
        {[ lit "Questions" := JArr questions ]}).

(** ** Sample inputs *)

Definition q_text (text_markup : str) (answers : list json) : json :=
  mk_question [(lit "text_markup", JStr text_markup)] answers.

Definition q_name (name_markup : str) (answers : list json) : json :=
  mk_question [(lit "name_markup", JStr name_markup)] answers.

Definition q_capital : json :=
  mk_question [ (lit "name_markup", JStr (lit "<p>Capital</p>"));
                (lit "text_markup", JStr (lit "of France?")) ]
    [mk_answer (lit "Paris")].

(** The lines of the sample files, with their parse. *)
Definition sample_lines : list (str * json) :=
  [ (lit "capital-en", mk_website (lit "en") [q_capital]);
    (lit "capital-fr", mk_website (lit "fr") [q_capital]);
    (lit "capital-untagged",
      JObj {[ lit "Questions" := JArr [q_capital] ]});
    (lit "twice",
      mk_website (lit "en")
        [ q_text (lit "Q") [mk_answer (lit "A1")];
          q_text (lit "Q") [mk_answer (lit "A2")] ]);
    (lit "twice-later-unanswered",
      mk_website (lit "en")
        [ q_text (lit "Q") [mk_answer (lit "A1")];
          q_text (lit "Q") [] ]);
    (lit "name-only",
      mk_website (lit "en") [q_name (lit "Capital") [mk_answer (lit "Paris")]]);
    (lit "no-markup",
      mk_website (lit "en") [mk_question [] [mk_answer (lit "Paris")]]);
    (lit "blank-name",
      mk_website (lit "en") [q_name [] [mk_answer (lit "Paris")]]);
    (lit "empty-object", JObj ∅) ].

(** The fragments of the samples, with the text nodes [lxml] finds in them. *)
Definition sample_fragments : list (str * list str) :=
  [ (lit "<p>Capital</p>", [lit "Capital"]);
    (lit "of France?", [lit "of France?"]);
    (lit "Paris", [lit "Paris"]);
    (lit "Q", [lit "Q"]);
    (lit "A1", [lit "A1"]);
    (lit "A2", [lit "A2"]);
    (lit "<b>Hi</b> there", [lit "Hi"; lit " there"]);
    (lit "caf&eacute;", [lit "caf" ++ [233]]);
    (lit "a &amp; b", [lit "a & b"]);
    (lit "&amp;lt;b&amp;gt;", [lit "&lt;b&gt;"]) ].

(** The libraries on the sample lines and fragments. *)
Definition sample_libs : Libraries := {|
  Element := list str;
  itertext := id;
  etree_HTML := corpus_HTML sample_fragments;
  html5 := html5_excerpt;
  json_loads := corpus_loads sample_lines
|}.

(** The same with every fragment taken as plain text. *)
Definition plain_libs : Libraries := {|
  Element := list str;
  itertext := id;
  etree_HTML := plain_HTML;
  html5 := html5_excerpt;
  json_loads := corpus_loads sample_lines
|}.

Definition sample_generate (only_english keep_markup : bool) (fi : list str)
  : result (gmap str (list str)) :=
  @generate_closed_book_format sample_libs only_english keep_markup fi.

Definition plain_generate (only_english keep_markup : bool) (fi : list str)
  : result (gmap str (list str)) :=
  @generate_closed_book_format plain_libs only_english keep_markup fi.

(** ** Notions for the further properties *)

(** Line 50 read as a test on a record: is its language tag [en]? *)
Definition english (content : json) : bool :=
  match getitem content (lit "Fasttext_language") with
  | Ok lang => negb (ne_str lang (lit "en"))
  | Raise _ => false
  end.

(** The same for a line of the input file. *)
Definition english_line {libs : Libraries} (website : str) : bool :=
  match json_loads website with
  | Ok content => english content
  | Raise _ => false
  end.

(** A line that parses to a record with a language tag. *)
Definition tagged_line {libs : Libraries} (website : str) : Prop :=
  exists content lang,
    json_loads website = Ok content
    /\ getitem content (lit "Fasttext_language") = Ok lang.

(** A JSON value that is not an object, and one that is not a string. *)
Definition not_object (v : json) : Prop :=
  match v with JObj _ => False | _ => True end.

Definition not_string (v : json) : Prop :=
  match v with JStr _ => False | _ => True end.

(** A stand-in for [pool.map] that runs the tasks one after the other and
    stops at the first that raises. *)
Fixpoint serial_map {F : Type}
  (fn_worker : value * value -> F -> result unit * F)
  (files : list (value * value)) (fs : F) : result unit * F :=
  match files with
  | [] => (Ok tt, fs)
  | paths :: rest =>
      match fn_worker paths fs with
      | (Ok _, fs') => serial_map fn_worker rest fs'
      | (Raise e, fs') => (Raise e, fs')
      end
  end.

(** A file system for the samples: the dictionaries dumped so far, by path.
    The only readable file is [in/a.json], with the line [capital-en];
    paths are joined with a slash. *)
Definition sample_system : System := {|
  FS := gmap str (gmap str (list str));
  os_path_isdir := fun _ v =>
    match v with
    | VStr p => Ok (bool_decide (p = lit "in"))
    | _ => Raise TypeError
    end;
  os_makedirs := fun fs _ => Ok fs;
  os_listdir := fun _ v =>
    match v with
    | VStr p => if bool_decide (p = lit "in") then Ok [lit "a.json"]
                else Raise (LibraryError 2)
    | _ => Raise TypeError
    end;
  os_path_join := fun v name =>
    match v with
    | VStr p => Ok (VStr (p ++ lit "/" ++ name))
    | _ => Raise TypeError
    end;
  read_lines := fun _ v =>
    match v with
    | VStr p => if bool_decide (p = lit "in/a.json") then Ok [lit "capital-en"]
                else Raise (LibraryError 2)
    | _ => Raise TypeError
    end;
  json_dump := fun fs v output =>
    match v with
    | VStr p => Ok (<[p := output]> fs)
    | _ => Raise TypeError
    end;
  Pool := fun _ => Ok tt;
  pool_map := serial_map
|}.

(** * Properties *)

(** ** The text helpers on concrete inputs *)

Example str_of_int_233 : str_of_int 233 = lit "233".
Proof. reflexivity. Qed.

Example xmlcharrefreplace_cafe :
  xmlcharrefreplace (lit "caf" ++ [233]) = lit "caf&#233;".
Proof. reflexivity. Qed.

Example collapse_spaces_runs :
  collapse_spaces (lit "a   b c  ") = lit "a b c ".
Proof. reflexivity. Qed.

Example unescape_amp :
  html_unescape html5_excerpt (lit "a &amp; b") = Ok (lit "a & b").
Proof. vm_compute. reflexivity. Qed.

Example unescape_numeric :
  html_unescape html5_excerpt (lit "caf&#233; &#x41;&#65")
  = Ok (lit "caf" ++ [233] ++ lit " AA").
Proof. vm_compute. reflexivity. Qed.

Example unescape_prefix :
  html_unescape html5_excerpt (lit "&notit; &unknown; & &#; &#x;")
  = Ok ([172] ++ lit "it; &unknown; & &#; &#x;").
Proof. vm_compute. reflexivity. Qed.

Example unescape_cp1252 :
  html_unescape html5_excerpt (lit "&#146;&#xFFFE;&#55296;x")
  = Ok ([0x2019; 0xFFFD] ++ lit "x").
Proof. vm_compute. reflexivity. Qed.

(** ** Results *)

Lemma bind_Ok {A B} (m : result A) (f : A -> result B) (b : B) :
  m ≫= f = Ok b -> exists a, m = Ok a /\ f a = Ok b.
Proof. destruct m as [a|e]; simpl; [eauto | discriminate]. Qed.

Lemma bind_Ok_l {A B} (a : A) (f : A -> result B) : Ok a ≫= f = f a.
Proof. reflexivity. Qed.

Lemma bind_Raise_l {A B} (e : exn) (f : A -> result B) :
  Raise e ≫= f = Raise e.
Proof. reflexivity. Qed.

Lemma bind_Raise {A B} (m : result A) (f : A -> result B) (e : exn) :
  m ≫= f = Raise e -> m = Raise e \/ exists a, m = Ok a /\ f a = Raise e.
Proof. destruct m as [a|e']; simpl; [eauto | intros [= ->]; auto]. Qed.

(** Split a successful sequence of binds into its successful steps. *)
Ltac bind_inv H :=
  let a := fresh "a" in
  let Ha := fresh "Hstep" in
  apply bind_Ok in H as (a & Ha & H).

(** ** Numerals *)

Lemma chars_of_uint_digits (d : Decimal.uint) :
  Forall (fun c => is_digit c = true) (chars_of_uint d).
Proof. induction d; simpl; constructor; auto. Qed.

Lemma uint_of_chars_of_uint (d : Decimal.uint) :
  uint_of_chars (chars_of_uint d) = d.
Proof. induction d; simpl; congruence. Qed.

Lemma length_chars_of_uint (d : Decimal.uint) :
  length (chars_of_uint d) = Decimal.nb_digits d.
Proof. induction d; simpl; congruence. Qed.

Lemma nb_digits_double (d : Decimal.uint) :
  (Decimal.nb_digits (Decimal.Little.double d) <= S (Decimal.nb_digits d))%nat
  /\ (Decimal.nb_digits (Decimal.Little.succ_double d)
      <= S (Decimal.nb_digits d))%nat.
Proof. induction d; simpl; lia. Qed.

(** A number has no more decimal digits than binary ones. *)
Lemma nb_digits_to_little_uint (p : positive) :
  (Decimal.nb_digits (Pos.to_little_uint p) <= Pos.size_nat p)%nat.
Proof.
  induction p as [p IH|p IH|]; simpl.
  - pose proof (proj2 (nb_digits_double (Pos.to_little_uint p))). lia.
  - pose proof (proj1 (nb_digits_double (Pos.to_little_uint p))). lia.
  - lia.
Qed.

(** The decimal form of a code point is far below the cap of [int]. *)
Lemma length_str_of_int (n : N) :
  n <= 0x10FFFF -> (length (str_of_int n) <= max_str_digits)%nat.
Proof.
  intros H. unfold str_of_int. rewrite length_chars_of_uint.
  destruct n as [|p]; [unfold max_str_digits; simpl; lia|].
  simpl. unfold Pos.to_uint. rewrite DecimalFacts.nb_digits_rev.
  pose proof (nb_digits_to_little_uint p) as Hp.
  assert (Hs : (Pos.size_nat p <= Pos.size_nat 0x110000)%nat)
    by (apply Pos.size_nat_monotone; lia).
  change (Pos.size_nat 0x110000) with 21%nat in Hs.
  unfold max_str_digits. lia.
Qed.

Lemma int10_short (ds : str) :
  (length ds <= max_str_digits)%nat ->
  int10 ds = Ok (N.of_uint (uint_of_chars ds)).
Proof.
  intros H. unfold int10.
  now rewrite (proj2 (Nat.ltb_ge max_str_digits (length ds))).
Qed.


Lemma int10_raises (ds : str) (e : exn) :
  int10 ds = Raise e -> e = ValueError.
Proof.
  unfold int10. destruct (max_str_digits <? length ds)%nat;
    [now intros [= <-] | discriminate].
Qed.

Lemma int10_str_of_int (n : N) :
  n <= 0x10FFFF -> int10 (str_of_int n) = Ok n.
Proof.
  intros H. rewrite int10_short by now apply length_str_of_int.
  unfold str_of_int. rewrite uint_of_chars_of_uint.
  now rewrite DecimalN.Unsigned.of_to.
Qed.

Lemma str_of_int_nonempty (n : N) : str_of_int n <> [].
Proof.
  unfold str_of_int. destruct n as [|p]; [discriminate|].
  simpl. pose proof (DecimalPos.Unsigned.to_uint_nonnil p) as Hp.
  destruct (Pos.to_uint p); try discriminate. contradiction.
Qed.

Lemma digit_not_semi (c : N) : is_digit c = true -> (c =? SEMI) = false.
Proof.
  unfold is_digit, SEMI. intros H. apply andb_prop in H as [_ H].
  apply N.leb_le in H. apply N.eqb_neq. lia.
Qed.

Lemma digit_not_xX (c : N) : is_digit c = true -> is_xX c = false.
Proof.
  unfold is_digit, is_xX. intros H. apply andb_prop in H as [_ H].
  apply N.leb_le in H. apply orb_false_intro; apply N.eqb_neq; lia.
Qed.

(** ** Characters that come back unchanged *)

Lemma invalid_charrefs_high (c : N) : 0x9F < c -> invalid_charrefs c = None.
Proof.
  intros H. destruct c as [|p]; [lia|].
  do 9 (try (destruct p as [p|p|]; try reflexivity; try lia)).
Qed.

Lemma invalid_codepoint_low (c : N) :
  0x9F < c -> c < 0xD800 -> invalid_codepoint c = false.
Proof.
  intros H1 H2. unfold invalid_codepoint, invalid_codepoints_others.
  cbn [List.existsb].
  repeat match goal with
         | |- context [?a <=? ?b] =>
             first [ rewrite (proj2 (N.leb_gt a b)) by lia
                   | rewrite (proj2 (N.leb_le a b)) by lia ]
         | |- context [?a =? ?b] => rewrite (proj2 (N.eqb_neq a b)) by lia
         end.
  reflexivity.
Qed.

(** The characters of the Latin-1 supplement and beyond, up to the
    surrogates, are among those that come back unchanged. *)
Lemma survives_range (c : N) : 0xA0 <= c -> c < 0xD800 -> survives c = true.
Proof.
  intros H1 H2. unfold survives, replace_numeric.
  rewrite (proj2 (N.ltb_ge c 128)) by lia.
  rewrite invalid_charrefs_high by lia.
  rewrite invalid_codepoint_low by lia.
  rewrite (proj2 (N.leb_gt 0xD800 c)) by lia.
  rewrite (proj2 (N.ltb_ge 0x10FFFF c)) by lia.
  simpl. apply N.eqb_refl.
Qed.

Lemma survives_ascii (c : N) : c < 128 -> c <> AMP -> survives c = true.
Proof.
  intros H1 H2. unfold survives.
  rewrite (proj2 (N.ltb_lt c 128)) by assumption.
  apply negb_true_iff. now apply N.eqb_neq.
Qed.

(** A character that comes back unchanged is a code point. *)
Lemma survives_bound (c : N) : survives c = true -> c <= 0x10FFFF.
Proof.
  intros H. destruct (N.le_gt_cases c 0x10FFFF) as [Hle|Hgt]; [assumption|].
  exfalso. unfold survives, replace_numeric in H.
  rewrite (proj2 (N.ltb_ge c 128)) in H by lia.
  rewrite invalid_charrefs_high in H by lia.
  rewrite (proj2 (N.ltb_lt 0x10FFFF c)) in H by lia.
  rewrite orb_true_r in H. apply N.eqb_eq in H. lia.
Qed.

(** ** [html.unescape] *)

Lemma span_app {A} (p : A -> bool) (ds : list A) (x : A) (r : list A) :
  Forall (fun c => p c = true) ds -> p x = false ->
  span p (ds ++ x :: r) = (ds, x :: r).
Proof.
  intros Hds Hx. induction Hds as [|c ds Hc _ IH]; simpl.
  - now rewrite Hx.
  - now rewrite Hc, IH.
Qed.






Lemma rstrip_semi_snoc (s : str) : rstrip_semi (s ++ [SEMI]) = rstrip_semi s.
Proof. induction s as [|c s IH]; simpl; [reflexivity | now rewrite IH]. Qed.

Lemma rstrip_semi_digits (ds : str) :
  Forall (fun c => is_digit c = true) ds -> rstrip_semi ds = ds.
Proof.
  induction 1 as [|c ds Hc Hds IH]; simpl; [reflexivity|].
  rewrite IH. destruct ds; [|reflexivity].
  now rewrite (digit_not_semi c Hc).
Qed.

Lemma rstrip_semi_opt_semi (ds r : str) :
  Forall (fun c => is_digit c = true) ds ->
  rstrip_semi (ds ++ opt_semi r) = ds.
Proof.
  intros Hds. destruct r as [|c r]; simpl.
  - rewrite app_nil_r. now apply rstrip_semi_digits.
  - destruct (c =? SEMI).
    + rewrite rstrip_semi_snoc. now apply rstrip_semi_digits.
    + rewrite app_nil_r. now apply rstrip_semi_digits.
Qed.


Lemma charref_match_decimal (ds r : str) :
  Forall (fun c => is_digit c = true) ds -> ds <> [] ->
  charref_match (HASH :: ds ++ SEMI :: r) = Some (HASH :: ds ++ [SEMI]).
Proof.
  intros Hds Hne. unfold charref_match.
  rewrite N.eqb_refl, (span_app is_digit ds SEMI r Hds) by reflexivity.
  destruct ds; [contradiction | reflexivity].
Qed.


Section UnescapeFacts.

Variable html5 : str -> option str.

Lemma replace_charref_digits (ds r : str) :
  Forall (fun c => is_digit c = true) ds -> ds <> [] ->
  replace_charref html5 (HASH :: ds ++ opt_semi r)
  = num ← int10 ds; Ok (replace_numeric num).
Proof.
  intros Hds Hne. unfold replace_charref. rewrite N.eqb_refl.
  destruct ds as [|x ds]; [contradiction|].
  change ((x :: ds) ++ opt_semi r) with (x :: ds ++ opt_semi r) at 1.
  cbv iota beta. rewrite (digit_not_xX x) by now inversion Hds.
  change (x :: ds ++ opt_semi r) with ((x :: ds) ++ opt_semi r).
  now rewrite rstrip_semi_opt_semi.
Qed.

Lemma replace_charref_decimal (ds : str) :
  Forall (fun c => is_digit c = true) ds -> ds <> [] ->
  replace_charref html5 (HASH :: ds ++ [SEMI])
  = num ← int10 ds; Ok (replace_numeric num).
Proof.
  intros Hds Hne. apply (replace_charref_digits ds [SEMI] Hds Hne).
Qed.

Lemma replace_charref_raises (g : str) (e : exn) :
  replace_charref html5 g = Raise e -> e = ValueError.
Proof.
  unfold replace_charref. destruct g as [|c s1]; [discriminate|].
  destruct (c =? HASH).
  - destruct s1 as [|x s2].
    + intros H. apply bind_Raise in H as [H | (n & _ & H)];
        [now apply int10_raises in H | discriminate].
    + destruct (is_xX x); [discriminate|].
      intros H. apply bind_Raise in H as [H | (n & _ & H)];
        [now apply int10_raises in H | discriminate].
  - destruct (html5 (c :: s1)); discriminate.
Qed.


Lemma charref_sub_skip (g r : str) :
  charref_sub html5 (length g) (g ++ r) = charref_sub html5 0 r.
Proof. induction g as [|c g IH]; simpl; [reflexivity | exact IH]. Qed.

Lemma charref_sub_plain (c : N) (r : str) :
  (c =? AMP) = false ->
  charref_sub html5 0 (c :: r)
  = rest ← charref_sub html5 0 r; Ok (c :: rest).
Proof. intros H. cbn [charref_sub]. now rewrite H. Qed.

Lemma charref_sub_amp (r g : str) :
  charref_match r = Some g ->
  charref_sub html5 0 (AMP :: r)
  = v ← replace_charref html5 g;
    rest ← charref_sub html5 (length g) r;
    Ok (v ++ rest).
Proof. intros H. cbn [charref_sub]. now rewrite N.eqb_refl, H. Qed.

(** Text without an ampersand is copied, whatever follows it. *)
Lemma charref_sub_prefix (a s : str) :
  List.existsb (N.eqb AMP) a = false ->
  charref_sub html5 0 (a ++ s)
  = rest ← charref_sub html5 0 s; Ok (a ++ rest).
Proof.
  induction a as [|c a IH]; intros H.
  - simpl. now destruct (charref_sub html5 0 s).
  - cbn [List.existsb] in H. apply orb_false_elim in H as [Hc Ha].
    rewrite N.eqb_sym in Hc.
    change ((c :: a) ++ s) with (c :: (a ++ s)).
    rewrite (charref_sub_plain c _ Hc), (IH Ha).
    now destruct (charref_sub html5 0 s).
Qed.

(** Without an ampersand nothing is replaced, so the test that opens
    [html.unescape] only saves the scan. *)
Lemma charref_sub_no_amp (s : str) :
  List.existsb (N.eqb AMP) s = false -> charref_sub html5 0 s = Ok s.
Proof.
  intros H. rewrite <- (app_nil_r s) at 1.
  rewrite (charref_sub_prefix s [] H). simpl. now rewrite app_nil_r.
Qed.

Lemma html_unescape_sub (s : str) :
  html_unescape html5 s = charref_sub html5 0 s.
Proof.
  unfold html_unescape.
  destruct (List.existsb (N.eqb AMP) s) eqn:E; [reflexivity|].
  symmetry. now apply charref_sub_no_amp.
Qed.

Lemma html_unescape_no_amp (s : str) :
  List.existsb (N.eqb AMP) s = false -> html_unescape html5 s = Ok s.
Proof. unfold html_unescape. now intros ->. Qed.

(** The only exception of [html.unescape] is the [ValueError] of [int]. *)
Lemma charref_sub_raises (skip : nat) (s : str) (e : exn) :
  charref_sub html5 skip s = Raise e -> e = ValueError.
Proof.
  revert skip. induction s as [|c s IH]; intros skip H; [discriminate|].
  cbn [charref_sub] in H. destruct skip as [|k]; [|now apply IH in H].
  destruct (c =? AMP).
  - destruct (charref_match s) as [g|].
    + apply bind_Raise in H as [H | (v & _ & H)];
        [now apply replace_charref_raises in H|].
      apply bind_Raise in H as [H | (rest & _ & H)];
        [now apply IH in H | discriminate].
    + apply bind_Raise in H as [H | (rest & _ & H)];
        [now apply IH in H | discriminate].
  - apply bind_Raise in H as [H | (rest & _ & H)];
      [now apply IH in H | discriminate].
Qed.

Lemma html_unescape_raises (s : str) (e : exn) :
  html_unescape html5 s = Raise e -> e = ValueError.
Proof. rewrite html_unescape_sub. apply charref_sub_raises. Qed.





(** One character, escaped and followed by anything, is read back. *)
Lemma charref_sub_xmlcharref (c : N) (r : str) :
  survives c = true ->
  charref_sub html5 0 (xmlcharref c ++ r)
  = rest ← charref_sub html5 0 r; Ok (c :: rest).
Proof.
  intros Hs. pose proof (survives_bound c Hs) as Hc. revert Hs.
  unfold survives, xmlcharref. destruct (c <? 128) eqn:E; intros H.
  - apply negb_true_iff in H. now apply charref_sub_plain.
  - pose proof (chars_of_uint_digits (N.to_uint c)) as Hds.
    pose proof (str_of_int_nonempty c) as Hne.
    fold (str_of_int c) in Hds.
    change (([AMP; HASH] ++ str_of_int c ++ [SEMI]) ++ r)
      with (AMP :: HASH :: (str_of_int c ++ [SEMI]) ++ r).
    rewrite <- app_assoc. simpl (([SEMI] ++ r)).
    rewrite (charref_sub_amp _ _ (charref_match_decimal _ r Hds Hne)).
    rewrite (replace_charref_decimal _ Hds Hne), (int10_str_of_int c Hc).
    rewrite !bind_Ok_l.
    replace (HASH :: str_of_int c ++ SEMI :: r)
      with ((HASH :: str_of_int c ++ [SEMI]) ++ r)
      by (simpl; now rewrite <- app_assoc).
    rewrite charref_sub_skip.
    destruct (replace_numeric c) as [|c' [|]]; try discriminate.
    apply N.eqb_eq in H. now subst.
Qed.

Lemma charref_sub_xmlcharrefreplace (t : str) :
  Forall (fun c => survives c = true) t ->
  charref_sub html5 0 (xmlcharrefreplace t) = Ok t.
Proof.
  induction 1 as [|c t Hc _ IH]; [reflexivity|].
  change (xmlcharrefreplace (c :: t))
    with (xmlcharref c ++ xmlcharrefreplace t).
  now rewrite charref_sub_xmlcharref, IH.
Qed.

Lemma html_unescape_xmlcharrefreplace (t : str) :
  Forall (fun c => survives c = true) t ->
  html_unescape html5 (xmlcharrefreplace t) = Ok t.
Proof.
  intros H. rewrite html_unescape_sub. now apply charref_sub_xmlcharrefreplace.
Qed.

End UnescapeFacts.

(** ** The other text helpers *)

Lemma remove_char_Forall (P : N -> Prop) (c : N) (s : str) :
  Forall P s -> Forall P (remove_char c s).
Proof.
  induction 1 as [|x s Hx _ IH]; simpl; [constructor|].
  destruct (negb (x =? c)); [constructor|]; assumption.
Qed.

Lemma strip_newlines_Forall (P : N -> Prop) (s : str) :
  Forall P s -> Forall P (strip_newlines s).
Proof. intros H. unfold strip_newlines. now do 2 apply remove_char_Forall. Qed.

Lemma collapse_spaces_Forall (P : N -> Prop) (s : str) :
  Forall P s -> Forall P (collapse_spaces s).
Proof.
  induction 1 as [|c s Hc Hs IH]; [constructor|].
  cbn [collapse_spaces]. destruct (c =? SPACE) eqn:E.
  - apply N.eqb_eq in E. subst c.
    destruct s as [|c' s]; [now repeat constructor|].
    destruct (c' =? SPACE); [assumption | now constructor].
  - now constructor.
Qed.

Lemma collapse_spaces_cons (c : N) (s : str) :
  collapse_spaces (c :: s)
  = if c =? SPACE then
      match s with
      | c' :: _ => if c' =? SPACE then collapse_spaces s
                   else SPACE :: collapse_spaces s
      | [] => [SPACE]
      end
    else c :: collapse_spaces s.
Proof. reflexivity. Qed.

Lemma collapse_spaces_head (c : N) (s : str) :
  exists r, collapse_spaces (c :: s) = c :: r.
Proof.
  revert c. induction s as [|c' s IH]; intros c; rewrite collapse_spaces_cons.
  - destruct (c =? SPACE) eqn:E; [|eauto].
    apply N.eqb_eq in E. subst. eauto.
  - destruct (c =? SPACE) eqn:E; [|eauto].
    apply N.eqb_eq in E. subst c.
    destruct (c' =? SPACE) eqn:E'; [|eauto].
    apply N.eqb_eq in E'. subst c'. apply IH.
Qed.

(** What [re.sub(" +", " ", s)] leaves has no run of spaces, and has the
    characters other than spaces of [s], in their order. *)
Lemma collapse_spaces_no_run (s : str) : no_space_run (collapse_spaces s).
Proof.
  induction s as [|c s IH]; [exact I|].
  rewrite collapse_spaces_cons. destruct (c =? SPACE) eqn:E.
  - destruct s as [|c' s]; [exact I|].
    destruct (c' =? SPACE) eqn:E'; [exact IH|].
    destruct (collapse_spaces_head c' s) as [r Hr].
    rewrite Hr in *. split; [|exact IH].
    intros [_ ->]. discriminate.
  - destruct (collapse_spaces s) as [|b r] eqn:Hs; [exact I|].
    split; [|exact IH]. intros [-> _]. discriminate.
Qed.

Lemma collapse_spaces_keeps_text (s : str) :
  List.filter (fun c => negb (c =? SPACE)) (collapse_spaces s)
  = List.filter (fun c => negb (c =? SPACE)) s.
Proof.
  induction s as [|c s IH]; [reflexivity|].
  rewrite collapse_spaces_cons. destruct (c =? SPACE) eqn:E.
  - cbn [List.filter]. rewrite E. cbn [negb].
    destruct s as [|c' s]; [reflexivity|].
    destruct (c' =? SPACE) eqn:E'; [exact IH|].
    rewrite <- IH. reflexivity.
  - cbn [List.filter]. rewrite E. cbn [negb]. now rewrite IH.
Qed.

Lemma xmlcharrefreplace_ascii (s : str) :
  Forall (fun c => c < 128) s -> xmlcharrefreplace s = s.
Proof.
  induction 1 as [|c s Hc _ IH]; [reflexivity|].
  change (xmlcharrefreplace (c :: s))
    with (xmlcharref c ++ xmlcharrefreplace s).
  unfold xmlcharref. rewrite (proj2 (N.ltb_lt c 128)) by assumption.
  simpl. now rewrite IH.
Qed.

Lemma remove_char_app (c : N) (a b : str) :
  remove_char c (a ++ b) = remove_char c a ++ remove_char c b.
Proof. unfold remove_char. induction a as [|x a IH]; simpl;
  [reflexivity|]. destruct (negb (x =? c)); simpl; now rewrite IH. Qed.

Lemma remove_char_idemp (c : N) (s : str) :
  remove_char c (remove_char c s) = remove_char c s.
Proof.
  unfold remove_char. induction s as [|x s IH]; simpl; [reflexivity|].
  destruct (negb (x =? c)) eqn:E; simpl; [|assumption].
  now rewrite E, IH.
Qed.

Lemma remove_char_comm (c d : N) (s : str) :
  remove_char c (remove_char d s) = remove_char d (remove_char c s).
Proof.
  unfold remove_char. induction s as [|x s IH]; simpl; [reflexivity|].
  destruct (negb (x =? d)) eqn:Ed, (negb (x =? c)) eqn:Ec; simpl;
    rewrite ?Ed, ?Ec, ?IH; reflexivity.
Qed.

Lemma remove_char_absent (c : N) (s : str) : c ∉ remove_char c s.
Proof.
  unfold remove_char. induction s as [|x s IH]; simpl.
  - apply not_elem_of_nil.
  - destruct (x =? c) eqn:E; simpl; [assumption|].
    apply not_elem_of_cons. split; [|assumption].
    apply N.eqb_neq in E. congruence.
Qed.

Lemma remove_char_keeps_absent (c d : N) (s : str) :
  d ∉ s -> d ∉ remove_char c s.
Proof.
  unfold remove_char. induction s as [|x s IH]; simpl; intros H;
    [assumption|].
  apply not_elem_of_cons in H as [Hx Hs].
  destruct (negb (x =? c)); [|now apply IH].
  apply not_elem_of_cons. split; [assumption | now apply IH].
Qed.

Lemma strip_newlines_app (a b : str) :
  strip_newlines (a ++ b) = strip_newlines a ++ strip_newlines b.
Proof. unfold strip_newlines. now rewrite !remove_char_app. Qed.

Lemma strip_newlines_idemp (s : str) :
  strip_newlines (strip_newlines s) = strip_newlines s.
Proof.
  unfold strip_newlines.
  rewrite (remove_char_comm LF CR (remove_char LF s)).
  now rewrite !remove_char_idemp.
Qed.

Lemma strip_newlines_clean (s : str) :
  (LF ∉ strip_newlines s) /\ (CR ∉ strip_newlines s).
Proof.
  unfold strip_newlines. split.
  - apply remove_char_keeps_absent, remove_char_absent.
  - apply remove_char_absent.
Qed.

Lemma existsb_amp_absent (s : str) :
  AMP ∉ s -> List.existsb (N.eqb AMP) s = false.
Proof.
  induction s as [|c s IH]; intros H; [reflexivity|].
  apply not_elem_of_cons in H as [Hc Hs].
  cbn [List.existsb]. rewrite (IH Hs), orb_false_r.
  now apply N.eqb_neq.
Qed.

Lemma str_of_int_ascii (n : N) : Forall (fun c => c < 128) (str_of_int n).
Proof.
  unfold str_of_int.
  eapply Forall_impl; [apply chars_of_uint_digits|].
  intros c H. unfold is_digit in H. apply andb_prop in H as [_ H].
  apply N.leb_le in H. lia.
Qed.



Lemma strip_newlines_keeps_absent (d : N) (s : str) :
  d ∉ s -> d ∉ strip_newlines s.
Proof.
  intros H. unfold strip_newlines. now do 2 apply remove_char_keeps_absent.
Qed.


(** ** The normaliser *)

Section NormalizerFacts.

Context {libs : Libraries}.

Lemma extract_text_markup x :
  extract_text x true
  = text ← html_unescape html5 (strip_newlines x); Ok (Some text).
Proof. reflexivity. Qed.

Lemma extract_text_tree x root :
  etree_HTML (strip_newlines x) = Root root ->
  extract_text x false = text ← tree_text root; Ok (Some text).
Proof. intros H. unfold extract_text. simpl. now rewrite H. Qed.

(** C5. When the lenient parser yields no parse tree for the input (with
    its line breaks removed), [extract_text] without [keep_markup] returns
    [None]: not the empty string and not an exception.  For the empty
    input this is the case in which the parser gives no tree for the empty
    string. *)
Theorem extract_text_no_tree (x : str) :
  etree_HTML (strip_newlines x) = NoRoot ->
  extract_text x false = Ok None
  /\ extract_text x false <> Ok (Some [])
  /\ forall e, extract_text x false <> Raise e.
Proof.
  intros H. unfold extract_text. simpl. rewrite H. simpl.
  repeat split; intros; discriminate.
Qed.


(** C7, as amended.  For ASCII text without an ampersand, which the parser
    hands back unchanged as the text of its tree (there is no tag in it),
    [extract_text] returns the input without its newline and carriage-return
    characters and with every run of spaces collapsed to one space. *)
Theorem plain_ascii_text (x : str) (text_root : Element) :
  etree_HTML (strip_newlines x) = Root text_root ->
  join [SPACE] (itertext text_root) = strip_newlines x ->
  Forall (fun c => c < 128) x ->
  AMP ∉ x ->
  extract_text x false = Ok (Some (collapse_spaces (strip_newlines x))).
Proof.
  intros Hroot Htext Hascii Hamp.
  rewrite (extract_text_tree x text_root Hroot). unfold tree_text.
  rewrite Htext, html_unescape_xmlcharrefreplace; [reflexivity|].
  apply collapse_spaces_Forall, strip_newlines_Forall.
  rewrite Forall_forall in Hascii. apply Forall_forall. intros c Hc.
  apply survives_ascii; [now apply Hascii|]. now intros ->.
Qed.

(** C6, as amended.  Escaping to numeric character references and decoding
    them again gives back every text made of characters that survive the
    round trip: ASCII other than the ampersand, and the characters beyond
    ASCII that [html.unescape] does not remap or drop, among them all from
    U+00A0 up to the surrogates.  [extract_text] then returns the text of
    the tree, with its runs of spaces collapsed, exactly. *)
Theorem charref_round_trip :
  (forall t, Forall (fun c => survives c = true) t ->
             html_unescape html5 (xmlcharrefreplace t) = Ok t)
  /\ (forall c, 0xA0 <= c -> c < 0xD800 -> survives c = true)
  /\ (forall x text_root,
         etree_HTML (strip_newlines x) = Root text_root ->
         Forall (fun c => survives c = true)
           (collapse_spaces (join [SPACE] (itertext text_root))) ->
         extract_text x false
         = Ok (Some (collapse_spaces (join [SPACE] (itertext text_root))))).
Proof.
  split; [|split].
  - intros t Ht. now apply html_unescape_xmlcharrefreplace.
  - exact survives_range.
  - intros x text_root Hroot Hs.
    rewrite (extract_text_tree x text_root Hroot). unfold tree_text.
    now rewrite html_unescape_xmlcharrefreplace.
Qed.

End NormalizerFacts.



Lemma extract_text_no_tree_witness :
  @etree_HTML plain_libs (strip_newlines []) = NoRoot
  /\ @extract_text plain_libs [] false = Ok None.
Proof.
  split; [reflexivity |].
  apply (@extract_text_no_tree plain_libs []).
  reflexivity.
Defined.

(** ** The aggregator *)

Section AggregatorFacts.

Context {libs : Libraries}.
Variable only_english : bool.
Variable keep_markup : bool.

(** *** What one question does to the dictionary *)

Lemma nonempty_true {A} (l : list A) : nonempty l = true <-> l <> [].
Proof. destruct l; simpl; split; congruence. Qed.

Lemma question_step_store question output :
  question_step keep_markup question output
  = w ← question_store keep_markup question;
    Ok (match w with
        | Some kv => <[kv.1 := kv.2]> output
        | None => output
        end).
Proof.
  unfold question_step, question_store.
  destruct (build_question_text keep_markup question) as [qt|e]; simpl;
    [|reflexivity].
  destruct (collect_answers keep_markup question qt) as [al|e]; simpl;
    [|reflexivity].
  now destruct (nonempty qt && nonempty al).
Qed.

Lemma question_store_Some question k l :
  question_store keep_markup question = Ok (Some (k, l)) <->
  build_question_text keep_markup question = Ok k
  /\ collect_answers keep_markup question k = Ok l
  /\ k <> [] /\ l <> [].
Proof.
  unfold question_store. split.
  - intros H. bind_inv H. bind_inv H.
    destruct (nonempty a && nonempty a0) eqn:E; [|discriminate].
    apply andb_prop in E as [E1 E2]. apply nonempty_true in E1, E2.
    injection H as -> ->. auto.
  - intros (Hq & Ha & Hk & Hl). rewrite Hq. simpl. rewrite Ha. simpl.
    apply nonempty_true in Hk, Hl. now rewrite Hk, Hl.
Qed.

Lemma question_step_write question output k l :
  build_question_text keep_markup question = Ok k ->
  collect_answers keep_markup question k = Ok l ->
  k <> [] -> l <> [] ->
  question_step keep_markup question output = Ok (<[k := l]> output).
Proof.
  intros Hq Ha Hk Hl. rewrite question_step_store.
  assert (question_store keep_markup question = Ok (Some (k, l))) as ->
    by (apply question_store_Some; auto).
  reflexivity.
Qed.

Lemma question_step_skip question output k l :
  build_question_text keep_markup question = Ok k ->
  collect_answers keep_markup question k = Ok l ->
  k = [] \/ l = [] ->
  question_step keep_markup question output = Ok output.
Proof.
  intros Hq Ha Hkl. unfold question_step. rewrite Hq. simpl.
  rewrite Ha. simpl.
  destruct Hkl as [-> | ->]; simpl; [reflexivity|].
  now rewrite andb_false_r.
Qed.

(** *** The loops as sequences of stores *)

Lemma questions_loop_stores questions output :
  questions_loop keep_markup questions output
  = ws ← questions_stores keep_markup questions; Ok (apply_stores ws output).
Proof.
  revert output. induction questions as [|q qs IH]; intros output; simpl.
  - reflexivity.
  - rewrite question_step_store.
    destruct (question_store keep_markup q) as [w|e]; simpl; [|reflexivity].
    rewrite IH.
    destruct (questions_stores keep_markup qs) as [ws|e]; simpl; [|reflexivity].
    now destruct w.
Qed.

Lemma website_step_stores content output :
  website_step only_english keep_markup content output
  = ws ← website_stores only_english keep_markup content;
    Ok (apply_stores ws output).
Proof.
  unfold website_step, website_stores.
  match goal with
  | |- (?m ≫= _) = _ => destruct m as [[|]|e]; simpl; try reflexivity
  end.
  destruct (getitem content (lit "Questions")) as [qs|e]; simpl;
    [|reflexivity].
  destruct (iter qs) as [items|e]; simpl; [|reflexivity].
  apply questions_loop_stores.
Qed.

Lemma apply_stores_app ws1 ws2 output :
  apply_stores (ws1 ++ ws2) output = apply_stores ws2 (apply_stores ws1 output).
Proof. unfold apply_stores. apply foldl_app. Qed.

Lemma lines_loop_stores fi output :
  lines_loop only_english keep_markup fi output
  = ws ← lines_stores only_english keep_markup fi;
    Ok (apply_stores ws output).
Proof.
  revert output. induction fi as [|line fi IH]; intros output; simpl.
  - reflexivity.
  - destruct (json_loads line) as [content|e]; simpl; [|reflexivity].
    rewrite website_step_stores.
    destruct (website_stores only_english keep_markup content) as [ws|e];
      simpl; [|reflexivity].
    rewrite IH.
    destruct (lines_stores only_english keep_markup fi) as [ws'|e]; simpl;
      [|reflexivity].
    now rewrite apply_stores_app.
Qed.

(** *** Reading the dictionary after a sequence of stores *)

Lemma apply_stores_cons (kv : str * list str) (ws : list (str * list str))
  (output : gmap str (list str)) :
  apply_stores (kv :: ws) output = apply_stores ws (<[kv.1 := kv.2]> output).
Proof. reflexivity. Qed.

Lemma apply_stores_untouched (ws : list (str * list str))
  (output : gmap str (list str)) (k : str) :
  k ∉ ws.*1 -> apply_stores ws output !! k = output !! k.
Proof.
  revert output. induction ws as [|[k' l'] ws IH]; intros output Hk.
  - reflexivity.
  - rewrite apply_stores_cons. simpl in *.
    apply not_elem_of_cons in Hk as [Hne Hk].
    rewrite IH by assumption. now apply lookup_insert_ne.
Qed.

Lemma apply_stores_last (ws1 ws2 : list (str * list str)) (k : str)
  (l : list str) (output : gmap str (list str)) :
  k ∉ ws2.*1 ->
  apply_stores (ws1 ++ (k, l) :: ws2) output !! k = Some l.
Proof.
  intros Hk. rewrite apply_stores_app, apply_stores_cons.
  rewrite apply_stores_untouched by assumption. apply lookup_insert_eq.
Qed.

Lemma questions_stores_proper questions ws :
  questions_stores keep_markup questions = Ok ws -> Forall proper_store ws.
Proof.
  revert ws. induction questions as [|q qs IH]; intros ws H; simpl in H.
  - injection H as <-. constructor.
  - bind_inv H. bind_inv H. injection H as <-.
    destruct a as [[k l]|]; [|now apply IH].
    constructor; [|now apply IH].
    apply question_store_Some in Hstep as (_ & _ & Hk & Hl). now split.
Qed.

Lemma website_stores_proper content ws :
  website_stores only_english keep_markup content = Ok ws ->
  Forall proper_store ws.
Proof.
  unfold website_stores. intros H. bind_inv H.
  destruct a.
  - injection H as <-. constructor.
  - bind_inv H. bind_inv H. eapply questions_stores_proper; eassumption.
Qed.

Lemma lines_stores_proper fi ws :
  lines_stores only_english keep_markup fi = Ok ws -> Forall proper_store ws.
Proof.
  revert ws. induction fi as [|line fi IH]; intros ws H; simpl in H.
  - injection H as <-. constructor.
  - bind_inv H. bind_inv H. bind_inv H. injection H as <-.
    apply Forall_app. split; [|now apply IH].
    eapply website_stores_proper; eassumption.
Qed.

Lemma generate_stores fi output :
  generate_closed_book_format only_english keep_markup fi = Ok output ->
  exists ws, lines_stores only_english keep_markup fi = Ok ws
             /\ Forall proper_store ws
             /\ output = apply_stores ws ∅.
Proof.
  unfold generate_closed_book_format. rewrite lines_loop_stores.
  intros H. bind_inv H. injection H as <-.
  exists a. repeat split; [assumption|].
  eapply lines_stores_proper; eassumption.
Qed.

(** *** The markup fields of a question *)

Lemma question_field_unusable fields field sep :
  unusable_field keep_markup fields field ->
  question_field keep_markup (JObj fields) field sep = Ok [].
Proof.
  unfold question_field, unusable_field. simpl.
  intros [H | (v & H & Hv)]; rewrite H; simpl.
  - reflexivity.
  - now rewrite Hv.
Qed.

Lemma question_field_usable fields field sep v t :
  fields !! field = Some v ->
  extract_text_value v keep_markup = Ok (Some t) ->
  question_field keep_markup (JObj fields) field sep = Ok (t ++ sep).
Proof.
  unfold question_field. simpl. intros H Hv. rewrite H. simpl.
  now rewrite Hv.
Qed.

Lemma collect_answers_empty question :
  collect_answers keep_markup question [] = Ok [].
Proof. reflexivity. Qed.

(** C1, as amended.  A question whose text comes out empty is never
    recorded, whatever its answers are: the step leaves the dictionary as it
    was (the answers are not even read).  The text is empty when
    [name_markup] is absent or normalises to [None] and [text_markup] is
    absent or normalises to [None] or to the empty string.  A [name_markup]
    that normalises to a string, be it the empty one, brings its space, so
    that the text is not empty.  The empty string is never a key of the
    dictionary that a file produces. *)
Theorem empty_question_never_recorded :
  (forall question output,
      build_question_text keep_markup question = Ok [] ->
      question_step keep_markup question output = Ok output)
  /\ (forall fields,
         unusable_field keep_markup fields (lit "name_markup") ->
         unusable_field keep_markup fields (lit "text_markup") ->
         build_question_text keep_markup (JObj fields) = Ok [])
  /\ (forall (fields : gmap str json) (v : json),
         unusable_field keep_markup fields (lit "name_markup") ->
         fields !! lit "text_markup" = Some v ->
         extract_text_value v keep_markup = Ok (Some []) ->
         build_question_text keep_markup (JObj fields) = Ok [])
  /\ (forall (fields : gmap str json) (v : json) (t question_text : str),
         fields !! lit "name_markup" = Some v ->
         extract_text_value v keep_markup = Ok (Some t) ->
         build_question_text keep_markup (JObj fields) = Ok question_text ->
         question_text <> [])
  /\ (forall fi output,
         generate_closed_book_format only_english keep_markup fi = Ok output ->
         output !! [] = None).
Proof.
  split; [|split; [|split; [|split]]].
  - intros question output H. unfold question_step. now rewrite H.
  - intros fields Hn Ht. unfold build_question_text.
    rewrite (question_field_unusable _ _ _ Hn). simpl.
    now rewrite (question_field_unusable _ _ _ Ht).
  - intros fields v Hn Hf Hv. unfold build_question_text.
    rewrite (question_field_unusable _ _ _ Hn). simpl.
    now rewrite (question_field_usable _ _ _ v [] Hf Hv).
  - intros fields v t question_text Hf Hv Hq.
    unfold build_question_text in Hq.
    rewrite (question_field_usable _ _ _ v t Hf Hv) in Hq. simpl in Hq.
    bind_inv Hq. injection Hq as <-. now destruct t.
  - intros fi output H.
    apply generate_stores in H as (ws & _ & Hws & ->).
    rewrite apply_stores_untouched; [apply lookup_empty|].
    intros Hin. apply list_elem_of_fmap in Hin as ([k l] & Hk & Hin).
    simpl in Hk. subst k.
    rewrite Forall_forall in Hws. now destruct (Hws _ Hin).
Qed.

(** C8. When [name_markup] normalises to a string [t], the text of the
    question starts with [t] and one space, whatever follows.  When
    [text_markup] is absent or normalises to [None], the text is [t]
    followed by that space, and this, not [t], is the key under which the
    answers are recorded. *)
Theorem name_segment_trailing_space fields v t :
  fields !! lit "name_markup" = Some v ->
  extract_text_value v keep_markup = Ok (Some t) ->
  (forall rest,
      question_field keep_markup (JObj fields) (lit "text_markup") []
      = Ok rest ->
      build_question_text keep_markup (JObj fields) = Ok (t ++ [SPACE] ++ rest))
  /\ (unusable_field keep_markup fields (lit "text_markup") ->
      build_question_text keep_markup (JObj fields) = Ok (t ++ [SPACE])
      /\ t ++ [SPACE] <> t
      /\ forall output l,
          collect_answers keep_markup (JObj fields) (t ++ [SPACE]) = Ok l ->
          l <> [] ->
          question_step keep_markup (JObj fields) output
          = Ok (<[t ++ [SPACE] := l]> output)
          /\ <[t ++ [SPACE] := l]> output !! t = output !! t).
Proof.
  intros Hf Hv.
  assert (Hname := question_field_usable fields _ [SPACE] v t Hf Hv).
  assert (Hne : t ++ [SPACE] <> t).
  { intros E. apply (f_equal length) in E. rewrite length_app in E.
    simpl in E. lia. }
  split.
  - intros rest Hrest. unfold build_question_text.
    rewrite Hname. simpl. rewrite Hrest. simpl.
    now rewrite <- app_assoc.
  - intros Ht.
    assert (Hq : build_question_text keep_markup (JObj fields)
                 = Ok (t ++ [SPACE])).
    { unfold build_question_text. rewrite Hname. simpl.
      rewrite (question_field_unusable _ _ _ Ht). simpl.
      now rewrite app_nil_r. }
    repeat split; [assumption|assumption| |].
    + apply question_step_write; try assumption.
      now destruct t.
    + now apply lookup_insert_ne.
Qed.

(** *** Repeated question texts *)

(** C4, as amended.  The dictionary binds a key to the list of the last
    store made under it, and to nothing else of the earlier ones: for two
    questions with the same non-empty text, when the later one has a
    surviving answer the result is the one the later question alone would
    give, and when it has none the later question stores nothing and the
    earlier binding stays. *)
Theorem last_store_wins :
  (forall fi ws1 k l ws2,
      lines_stores only_english keep_markup fi = Ok (ws1 ++ (k, l) :: ws2) ->
      k ∉ ws2.*1 ->
      exists output,
        generate_closed_book_format only_english keep_markup fi = Ok output
        /\ output !! k = Some l)
  /\ (forall q1 q2 k l1 l2 output,
         build_question_text keep_markup q1 = Ok k ->
         collect_answers keep_markup q1 k = Ok l1 ->
         build_question_text keep_markup q2 = Ok k ->
         collect_answers keep_markup q2 k = Ok l2 ->
         k <> [] -> l2 <> [] ->
         questions_loop keep_markup [q1; q2] output = Ok (<[k := l2]> output)
         /\ questions_loop keep_markup [q1; q2] output
            = questions_loop keep_markup [q2] output)
  /\ (forall q1 q2 k l1 output,
         build_question_text keep_markup q1 = Ok k ->
         collect_answers keep_markup q1 k = Ok l1 ->
         build_question_text keep_markup q2 = Ok k ->
         collect_answers keep_markup q2 k = Ok [] ->
         questions_loop keep_markup [q1; q2] output
         = questions_loop keep_markup [q1] output).
Proof.
  split; [|split].
  - intros fi ws1 k l ws2 Hws Hk.
    unfold generate_closed_book_format. rewrite lines_loop_stores, Hws.
    simpl. eexists. split; [reflexivity|]. now apply apply_stores_last.
  - intros q1 q2 k l1 l2 output Hq1 Ha1 Hq2 Ha2 Hk Hl2. simpl.
    rewrite (question_step_write q2 output k l2) by assumption. simpl.
    destruct l1 as [|a l1].
    + rewrite (question_step_skip q1 output k []) by auto. simpl.
      rewrite (question_step_write q2 output k l2) by assumption. auto.
    + rewrite (question_step_write q1 output k (a :: l1)) by easy. simpl.
      rewrite (question_step_write q2 _ k l2) by assumption. simpl.
      now rewrite insert_insert_eq.
  - intros q1 q2 k l1 output Hq1 Ha1 Hq2 Ha2. simpl.
    destruct (question_step keep_markup q1 output) as [o|e] eqn:E; simpl;
      [|reflexivity].
    now rewrite (question_step_skip q2 o k []) by auto.
Qed.

(** *** The language tag *)

Lemma website_step_same_but_language c1 c2 output :
  same_but_language c1 c2 ->
  website_step false keep_markup c1 output
  = website_step false keep_markup c2
      output.
Proof.
  intros H. unfold website_step. simpl.
  assert (Hq : getitem c1 (lit "Questions") = getitem c2 (lit "Questions")).
  { destruct c1, c2; simpl in H; try discriminate H;
      try (rewrite H; reflexivity); try reflexivity.
    simpl.
    rewrite <- (lookup_delete_ne fields (lit "Fasttext_language")
                  (lit "Questions")) by discriminate.
    rewrite <- (lookup_delete_ne fields0 (lit "Fasttext_language")
                  (lit "Questions")) by discriminate.
    now rewrite H. }
  now rewrite Hq.
Qed.

(** C10. Without [only_english] the language tag is never read: two files
    whose lines differ at most in the [Fasttext_language] field of their
    records (other value, or field absent) give the same result, dictionary
    or exception. *)
Theorem language_tag_not_read (fi1 fi2 : list str) :
  Forall2 (same_line_but_language json_loads) fi1 fi2 ->
  generate_closed_book_format false keep_markup fi1
  = generate_closed_book_format false keep_markup fi2.
Proof.
  unfold generate_closed_book_format. generalize (∅ : gmap str (list str)).
  intros output H. revert output.
  induction H as [|l1 l2 fi1 fi2 Hl _ IH]; intros output; simpl.
  - reflexivity.
  - unfold same_line_but_language in Hl.
    destruct (json_loads l1) as [c1|e1], (json_loads l2) as [c2|e2];
      simpl; try contradiction.
    + rewrite (website_step_same_but_language c1 c2 output Hl).
      destruct (website_step false keep_markup c2 output); simpl;
        [apply IH | reflexivity].
    + now subst.
Qed.

(** *** Absent fields *)

Lemma extract_text_value_no_KeyError v k :
  extract_text_value v keep_markup <> Raise (KeyError k).
Proof.
  destruct v; simpl; try discriminate.
  unfold extract_text. destruct keep_markup.
  - intros H. apply bind_Raise in H as [H | (t & _ & H)]; [|discriminate].
    now apply html_unescape_raises in H.
  - destruct (etree_HTML _) as [root| |code]; try discriminate.
    intros H. apply bind_Raise in H as [H | (t & _ & H)]; [|discriminate].
    unfold tree_text in H. now apply html_unescape_raises in H.
Qed.

Lemma in_keys_no_KeyError field obj k :
  in_keys field obj <> Raise (KeyError k).
Proof. destruct obj; discriminate. Qed.

Lemma in_keys_getitem field obj :
  in_keys field obj = Ok true -> exists v, getitem obj field = Ok v.
Proof.
  destruct obj; try discriminate. simpl. intros [= H].
  apply bool_decide_eq_true in H as [v Hv]. rewrite Hv. eauto.
Qed.

Lemma question_field_no_KeyError question field sep k :
  question_field keep_markup question field sep <> Raise (KeyError k).
Proof.
  unfold question_field. intros H.
  apply bind_Raise in H as [H | ([|] & Hin & H)].
  - now apply in_keys_no_KeyError in H.
  - apply in_keys_getitem in Hin as (v & Hv). rewrite Hv in H. simpl in H.
    apply bind_Raise in H as [H | ([t|] & _ & H)]; try discriminate.
    now apply extract_text_value_no_KeyError in H.
  - discriminate.
Qed.

Lemma build_question_text_no_KeyError question k :
  build_question_text keep_markup question <> Raise (KeyError k).
Proof.
  unfold build_question_text. intros H.
  apply bind_Raise in H as [H | (n & _ & H)].
  - now apply question_field_no_KeyError in H.
  - apply bind_Raise in H as [H | (t & _ & H)]; [|discriminate].
    now apply question_field_no_KeyError in H.
Qed.

Lemma answer_step_no_KeyError answer answer_list k :
  answer_step keep_markup answer answer_list <> Raise (KeyError k).
Proof.
  unfold answer_step. intros H.
  apply bind_Raise in H as [H | ([|] & Hin & H)].
  - now apply in_keys_no_KeyError in H.
  - apply in_keys_getitem in Hin as (v & Hv). rewrite Hv in H. simpl in H.
    apply bind_Raise in H as [H | ([t|] & _ & H)].
    + now apply extract_text_value_no_KeyError in H.
    + destruct (nonempty t); discriminate.
    + discriminate.
  - discriminate.
Qed.

Lemma answers_loop_no_KeyError answers answer_list k :
  answers_loop keep_markup answers answer_list <> Raise (KeyError k).
Proof.
  revert answer_list. induction answers as [|a answers IH];
    intros answer_list H; simpl in H; [discriminate|].
  apply bind_Raise in H as [H | (al & _ & H)].
  - now apply answer_step_no_KeyError in H.
  - now apply IH in H.
Qed.

Lemma iter_no_KeyError obj k : iter obj <> Raise (KeyError k).
Proof. destruct obj; discriminate. Qed.

Lemma getitem_KeyError obj key k :
  getitem obj key = Raise (KeyError k) -> k = key.
Proof.
  destruct obj; try discriminate. simpl.
  destruct (fields !! key); [discriminate|]. now intros [= ->].
Qed.

Lemma question_step_KeyError question output k :
  question_step keep_markup question output = Raise (KeyError k) ->
  k = lit "Answers".
Proof.
  unfold question_step. intros H.
  apply bind_Raise in H as [H | (qt & _ & H)].
  - now apply build_question_text_no_KeyError in H.
  - apply bind_Raise in H as [H | (al & _ & H)].
    + unfold collect_answers in H.
      destruct (0 <? length qt)%nat; [|discriminate].
      apply bind_Raise in H as [H | (answers & _ & H)].
      * now apply getitem_KeyError in H.
      * apply bind_Raise in H as [H | (items & _ & H)].
        -- now apply iter_no_KeyError in H.
        -- now apply answers_loop_no_KeyError in H.
    + destruct (nonempty qt && nonempty al); discriminate.
Qed.

Lemma questions_loop_KeyError questions output k :
  questions_loop keep_markup questions output = Raise (KeyError k) ->
  k = lit "Answers".
Proof.
  revert output. induction questions as [|q qs IH]; intros output H;
    simpl in H; [discriminate|].
  apply bind_Raise in H as [H | (o & _ & H)].
  - eapply question_step_KeyError; eassumption.
  - eapply IH; eassumption.
Qed.

(** C2, as amended.  The markup fields are the ones whose absence is
    handled by a test on the keys: an absent [name_markup] or
    [text_markup] adds nothing to the text of its question, and an answer
    without [text_markup] is passed over.  The other three fields are read
    without such a test.  A record raises [KeyError] only for
    [Fasttext_language], [Questions] or [Answers]; it does so for a missing
    [Fasttext_language] under [only_english], for a missing [Questions] in
    a record that is not skipped, and for a missing [Answers] in a question
    whose text is not empty. *)
Theorem absent_fields :
  (forall fields field sep,
      fields !! field = None ->
      question_field keep_markup (JObj fields) field sep = Ok [])
  /\ (forall fields answer_list,
         fields !! lit "text_markup" = None ->
         answer_step keep_markup (JObj fields) answer_list = Ok answer_list)
  /\ (forall content output k,
         website_step only_english keep_markup content output
         = Raise (KeyError k) ->
         k = lit "Fasttext_language" \/ k = lit "Questions"
         \/ k = lit "Answers")
  /\ (forall fields output,
         only_english = true ->
         fields !! lit "Fasttext_language" = None ->
         website_step only_english keep_markup (JObj fields) output
         = Raise (KeyError (lit "Fasttext_language")))
  /\ (forall fields output,
         only_english = false
         \/ fields !! lit "Fasttext_language" = Some (JStr (lit "en")) ->
         fields !! lit "Questions" = None ->
         website_step only_english keep_markup (JObj fields) output
         = Raise (KeyError (lit "Questions")))
  /\ (forall fields output k,
         build_question_text keep_markup (JObj fields) = Ok k -> k <> [] ->
         fields !! lit "Answers" = None ->
         question_step keep_markup (JObj fields) output
         = Raise (KeyError (lit "Answers"))).
Proof.
  repeat apply conj.
  - intros fields field sep H. unfold question_field. simpl. now rewrite H.
  - intros fields answer_list H. unfold answer_step. simpl. now rewrite H.
  - intros content output k H. unfold website_step in H.
    apply bind_Raise in H as [H | (skip & _ & H)].
    + left. destruct only_english; [|discriminate].
      apply bind_Raise in H as [H | (lang & _ & H)]; [|discriminate].
      now apply getitem_KeyError in H.
    + right. destruct skip; [discriminate|].
      apply bind_Raise in H as [H | (qs & _ & H)].
      * left. now apply getitem_KeyError in H.
      * right. apply bind_Raise in H as [H | (items & _ & H)].
        -- now apply iter_no_KeyError in H.
        -- eapply questions_loop_KeyError; eassumption.
  - intros fields output -> H. unfold website_step. simpl. now rewrite H.
  - intros fields output Hlang H. unfold website_step. simpl.
    destruct Hlang as [-> | Hlang]; simpl.
    + now rewrite H.
    + rewrite H. destruct only_english; simpl; [|reflexivity].
      rewrite Hlang. reflexivity.
  - intros fields output k Hq Hk H. unfold question_step. rewrite Hq.
    simpl. unfold collect_answers. destruct k; [contradiction|].
    simpl. now rewrite H.
Qed.

End AggregatorFacts.

(** *** The aggregator on the sample files *)

Example generate_capital :
  sample_generate true false [lit "capital-en"]
  = Ok {[ lit "Capital of France?" := [lit "Paris"] ]}.
Proof. vm_compute. reflexivity. Qed.

Example generate_capital_fr :
  sample_generate true false [lit "capital-fr"] = Ok ∅.
Proof. vm_compute. reflexivity. Qed.

Example generate_twice :
  sample_generate true false [lit "twice"] = Ok {[ lit "Q" := [lit "A2"] ]}.
Proof. vm_compute. reflexivity. Qed.

(** C1, counterexample.  In the file [blank-name] the [name_markup] of the
    question is the empty string, which with [keep_markup] normalises to the
    empty string.  The text of the question is then one space, and the
    question is recorded under it. *)
Lemma blank_name_recorded :
  @extract_text_value plain_libs (JStr []) true = Ok (Some [])
  /\ @build_question_text plain_libs true
       (q_name [] [mk_answer (lit "Paris")]) = Ok (lit " ")
  /\ plain_generate true true [lit "blank-name"]
     = Ok {[ lit " " := [lit "Paris"] ]}.
Proof. repeat split; vm_compute; reflexivity. Qed.

Example generate_malformed_line :
  sample_generate true false [lit "capital-en"; lit "not json"]
  = Raise (LibraryError 0).
Proof. vm_compute. reflexivity. Qed.

Lemma empty_question_never_recorded_witness :
  @build_question_text plain_libs true
    (q_text [] [mk_answer (lit "Paris")]) = Ok []
  /\ @question_step plain_libs true
       (q_text [] [mk_answer (lit "Paris")]) ∅ = Ok ∅.
Proof.
  assert (H : @build_question_text plain_libs true
                (q_text [] [mk_answer (lit "Paris")]) = Ok []).
  { apply (proj1 (proj2 (proj2
             (@empty_question_never_recorded plain_libs true true)))
             _ (JStr [])).
    - left. reflexivity.
    - reflexivity.
    - reflexivity. }
  split; [exact H|].
  exact (proj1 (@empty_question_never_recorded plain_libs true true) _ ∅ H).
Defined.

Lemma name_segment_trailing_space_witness :
  @build_question_text plain_libs false
    (q_name (lit "Capital") [mk_answer (lit "Paris")]) = Ok (lit "Capital ")
  /\ plain_generate true false [lit "name-only"]
     = Ok {[ lit "Capital " := [lit "Paris"] ]}.
Proof.
  split; [|vm_compute; reflexivity].
  pose proof (@name_segment_trailing_space plain_libs false
                (<[lit "Answers" := JArr [mk_answer (lit "Paris")]]>
                   (list_to_map [(lit "name_markup", JStr (lit "Capital"))]))
                (JStr (lit "Capital")) (lit "Capital")) as H.
  destruct H as [_ H]; [reflexivity | reflexivity |].
  destruct H as [H _]; [left; reflexivity|].
  exact H.
Defined.

(** C4, counterexample.  In the file [twice-later-unanswered] two questions
    have the text [Q]; the list of the later one is empty, and the key stays
    bound to the list of the earlier one. *)
Lemma later_list_not_always_bound :
  @build_question_text plain_libs false
    (q_text (lit "Q") []) = Ok (lit "Q")
  /\ @collect_answers plain_libs false
       (q_text (lit "Q") []) (lit "Q") = Ok []
  /\ plain_generate true false [lit "twice-later-unanswered"]
     = Ok {[ lit "Q" := [lit "A1"] ]}
  /\ ({[ lit "Q" := [lit "A1"] ]} : gmap str (list str)) !! lit "Q" <> Some [].
Proof.
  repeat split; try (vm_compute; reflexivity). vm_compute. discriminate.
Qed.

Lemma last_store_wins_witness :
  @questions_loop plain_libs false
    [ q_text (lit "Q") [mk_answer (lit "A1")];
      q_text (lit "Q") [mk_answer (lit "A2")] ] ∅
  = Ok (<[lit "Q" := [lit "A2"]]> ∅).
Proof.
  apply (proj1 (proj2 (@last_store_wins plain_libs true false))
           _ _ (lit "Q") [lit "A1"] [lit "A2"]);
    try reflexivity; discriminate.
Defined.

Lemma language_tag_not_read_witness :
  Forall2 (same_line_but_language (corpus_loads sample_lines))
    [lit "capital-fr"; lit "capital-en"]
    [lit "capital-untagged"; lit "capital-fr"]
  /\ sample_generate false false [lit "capital-fr"; lit "capital-en"]
     = sample_generate false false [lit "capital-untagged"; lit "capital-fr"].
Proof.
  assert (H : Forall2 (same_line_but_language (corpus_loads sample_lines))
                [lit "capital-fr"; lit "capital-en"]
                [lit "capital-untagged"; lit "capital-fr"]).
  { repeat constructor; vm_compute; reflexivity. }
  split; [exact H|].
  exact (@language_tag_not_read sample_libs false _ _ H).
Defined.

(** C2, counterexample.  The line [empty-object] parses as a JSON object
    without any field: the aggregator raises [KeyError] on it, for the
    language tag under [only_english] and for [Questions] otherwise. *)
Lemma absent_field_raises :
  corpus_loads sample_lines (lit "empty-object") = Ok (JObj ∅)
  /\ sample_generate true false [lit "empty-object"]
     = Raise (KeyError (lit "Fasttext_language"))
  /\ sample_generate false false [lit "empty-object"]
     = Raise (KeyError (lit "Questions")).
Proof. repeat split; vm_compute; reflexivity. Qed.

Lemma absent_fields_witness :
  @website_step plain_libs true false
    (JObj ∅) ∅ = Raise (KeyError (lit "Fasttext_language")).
Proof.
  apply (proj1 (proj2 (proj2 (proj2 (@absent_fields plain_libs true false)))));
    reflexivity.
Defined.

(** ** The driver *)

Section DriverFacts.

Context {libs : Libraries} {sys : System}.

Variables input_folder output_folder : value.
Variables only_english keep_markup : bool.
Variable num_workers : Z.

Local Abbreviation args :=
  (parse_args input_folder output_folder only_english keep_markup
     num_workers).

Lemma getattr_input_folder :
  getattr args (lit "input_folder") = Ok input_folder.
Proof. reflexivity. Qed.

Lemma getattr_output_folder :
  getattr args (lit "output_folder") = Ok output_folder.
Proof. reflexivity. Qed.

Lemma getattr_data_folder :
  getattr args (lit "data_folder") = Raise (AttributeError (lit "data_folder")).
Proof. reflexivity. Qed.

(** C3, on the code.  On the namespace that the argument parser builds,
    [main] never reaches the worker pool: once the two assertions hold and
    the output directory is made, reading [args.data_folder] raises
    [AttributeError], as the parser declares no such option.  The file
    system is left as [os.makedirs] made it, so no output file is written,
    whatever the input directory holds. *)
Theorem main_raises_before_dispatch (fs : FS) :
  main args fs
  = match os_path_isdir fs input_folder with
    | Raise e => (Raise e, fs)
    | Ok false => (Raise AssertionError, fs)
    | Ok true =>
        match os_path_isdir fs output_folder with
        | Raise e => (Raise e, fs)
        | Ok true => (Raise AssertionError, fs)
        | Ok false =>
            match os_makedirs fs output_folder with
            | Raise e => (Raise e, fs)
            | Ok fs' => (Raise (AttributeError (lit "data_folder")), fs')
            end
        end
    end.
Proof.
  unfold main, mbind, io_mbind, io_bind, io_assert, io_write, io_read.
  rewrite getattr_input_folder, getattr_output_folder, getattr_data_folder.
  destruct (os_path_isdir fs input_folder) as [[|]|e]; try reflexivity.
  destruct (os_path_isdir fs output_folder) as [[|]|e]; try reflexivity.
  simpl. destruct (os_makedirs fs output_folder) as [fs'|e]; reflexivity.
Qed.

End DriverFacts.

(** ** The normaliser on the sample fragments *)

Example extract_text_bold :
  @extract_text sample_libs (lit "<b>Hi</b> there") false
  = Ok (Some (lit "Hi there")).
Proof. vm_compute. reflexivity. Qed.

Example extract_text_cafe :
  @extract_text sample_libs (lit "caf&eacute;") false
  = Ok (Some (lit "caf" ++ [233])).
Proof. vm_compute. reflexivity. Qed.

Lemma plain_ascii_text_witness :
  @extract_text plain_libs (lit "a   b" ++ [LF] ++ lit "c  d") false
  = Ok (Some (lit "a bc d")).
Proof.
  apply (@plain_ascii_text plain_libs (lit "a   b" ++ [LF] ++ lit "c  d")
           [lit "a   bc  d"]).
  - reflexivity.
  - reflexivity.
  - repeat constructor.
  - compute_done.
Defined.

(** C7, counterexample.  [a &amp; b] is ASCII text without a tag.  Its tree
    holds the text [a & b], which is what [extract_text] returns; were the
    reference left in the tree, the final [html.unescape] would decode it all
    the same.  The result is not the input. *)
Lemma ascii_reference_decoded :
  Forall (fun c => c < 128) (lit "a &amp; b")
  /\ (60 ∉ lit "a &amp; b")
  /\ @extract_text sample_libs (lit "a &amp; b") false = Ok (Some (lit "a & b"))
  /\ @extract_text plain_libs (lit "a &amp; b") false = Ok (Some (lit "a & b"))
  /\ lit "a & b" <> collapse_spaces (strip_newlines (lit "a &amp; b")).
Proof.
  repeat apply conj; try (vm_compute; reflexivity); compute_done.
Qed.

Lemma charref_round_trip_witness :
  @extract_text sample_libs (lit "caf&eacute;") false
  = Ok (Some (lit "caf" ++ [233])).
Proof.
  apply (proj2 (proj2 (@charref_round_trip sample_libs))
           (lit "caf&eacute;") [lit "caf" ++ [233]]).
  - reflexivity.
  - repeat constructor.
Defined.

(** C6, counterexample.  The character U+0092 is beyond ASCII; escaped to
    [&#146;] and decoded, it comes back as U+2019, so the text of the tree is
    not preserved.  Nor is text that holds a reference of its own: the tree
    of [&amp;lt;b&amp;gt;] has the text [&lt;b&gt;], and [<b>] is returned. *)
Lemma round_trip_not_exact :
  xmlcharrefreplace [0x92] = lit "&#146;"
  /\ html_unescape html5_excerpt (xmlcharrefreplace [0x92]) = Ok [0x2019]
  /\ @extract_text plain_libs [0x92] false = Ok (Some [0x2019])
  /\ @extract_text sample_libs (lit "&amp;lt;b&amp;gt;") false
     = Ok (Some (lit "<b>")).
Proof. repeat apply conj; vm_compute; reflexivity. Qed.

(** * Further properties *)

(** ** The answers of a question *)

Section AnswerFacts.

Context {libs : Libraries}.
Variable keep_markup : bool.





Lemma answer_step_nonempty answer (answer_list l : list str) :
  answer_step keep_markup answer answer_list = Ok l ->
  Forall (fun a => a <> []) answer_list -> Forall (fun a => a <> []) l.
Proof.
  unfold answer_step. intros H Hacc. bind_inv H. bind_inv H.
  destruct a0 as [t|]; [|now injection H as <-].
  destruct (nonempty t) eqn:E; injection H as <-; [|assumption].
  apply Forall_app. split; [assumption|].
  constructor; [|constructor]. now destruct t.
Qed.

Lemma answers_loop_nonempty answers (answer_list l : list str) :
  answers_loop keep_markup answers answer_list = Ok l ->
  Forall (fun a => a <> []) answer_list -> Forall (fun a => a <> []) l.
Proof.
  revert answer_list. induction answers as [|a answers IH];
    intros answer_list H Hacc; simpl in H.
  - now injection H as <-.
  - bind_inv H. eapply IH; [eassumption|].
    eapply answer_step_nonempty; eassumption.
Qed.

Lemma collect_answers_nonempty question question_text (l : list str) :
  collect_answers keep_markup question question_text = Ok l ->
  Forall (fun a => a <> []) l.
Proof.
  unfold collect_answers. destruct (0 <? length question_text)%nat.
  - intros H. bind_inv H. bind_inv H.
    eapply answers_loop_nonempty; [eassumption | constructor].
  - intros [= <-]. constructor.
Qed.

End AnswerFacts.

(** ** The entries of the dictionary *)

Lemma apply_stores_origin (ws : list (str * list str))
  (output : gmap str (list str)) (k : str) (l : list str) :
  apply_stores ws output !! k = Some l ->
  output !! k = Some l \/ (k, l) ∈ ws.
Proof.
  revert output. induction ws as [|[k' l'] ws IH]; intros output H.
  - now left.
  - rewrite apply_stores_cons in H. apply IH in H as [H | H].
    + simpl in H. destruct (decide (k' = k)) as [->|Hne].
      * rewrite lookup_insert_eq in H. injection H as ->.
        right. apply list_elem_of_here.
      * rewrite lookup_insert_ne in H by assumption. now left.
    + right. now apply list_elem_of_further.
Qed.

Lemma apply_stores_keeps (ws : list (str * list str))
  (output : gmap str (list str)) (k : str) :
  is_Some (output !! k) -> is_Some (apply_stores ws output !! k).
Proof.
  revert output. induction ws as [|[k' l'] ws IH]; intros output H.
  - assumption.
  - rewrite apply_stores_cons. apply IH. simpl.
    destruct (decide (k' = k)) as [->|Hne].
    + rewrite lookup_insert_eq. eauto.
    + now rewrite lookup_insert_ne.
Qed.

Lemma apply_stores_has (ws : list (str * list str))
  (output : gmap str (list str)) (k : str) (l : list str) :
  (k, l) ∈ ws -> is_Some (apply_stores ws output !! k).
Proof.
  revert output. induction ws as [|[k' l'] ws IH]; intros output H.
  - now apply elem_of_nil in H.
  - rewrite apply_stores_cons. apply elem_of_cons in H as [[= <- <-] | H].
    + apply apply_stores_keeps. simpl. rewrite lookup_insert_eq. eauto.
    + now apply IH.
Qed.

(** The dictionary after the stores is their dictionary laid over the one
    before. *)
Lemma apply_stores_union (ws : list (str * list str))
  (output : gmap str (list str)) :
  apply_stores ws output = apply_stores ws ∅ ∪ output.
Proof.
  revert output. induction ws as [|[k l] ws IH]; intros output.
  - simpl. now rewrite (left_id_L ∅ (∪)).
  - rewrite !apply_stores_cons. simpl.
    rewrite (IH (<[k := l]> output)), (IH (<[k := l]> ∅)).
    rewrite <- (assoc_L (∪)). f_equal.
    rewrite insert_union_singleton_l, insert_union_singleton_l.
    now rewrite (right_id_L ∅ (∪)).
Qed.

Section EntryFacts.

Context {libs : Libraries}.
Variable only_english : bool.
Variable keep_markup : bool.

Lemma questions_stores_elem questions ws (k : str) (l : list str) :
  questions_stores keep_markup questions = Ok ws ->
  (k, l) ∈ ws <->
  exists question, question ∈ questions
                   /\ question_store keep_markup question = Ok (Some (k, l)).
Proof.
  revert ws. induction questions as [|q qs IH]; intros ws H; simpl in H.
  - injection H as <-. split.
    + intros Hin. now apply elem_of_nil in Hin.
    + intros (q & Hq & _). now apply elem_of_nil in Hq.
  - bind_inv H. bind_inv H. injection H as <-.
    specialize (IH a0 Hstep0). split.
    + intros Hin. destruct a as [kv|].
      * apply elem_of_cons in Hin as [-> | Hin].
        -- exists q. split; [apply list_elem_of_here | assumption].
        -- apply IH in Hin as (q' & Hq' & Hs).
           exists q'. split; [now apply list_elem_of_further | assumption].
      * apply IH in Hin as (q' & Hq' & Hs).
        exists q'. split; [now apply list_elem_of_further | assumption].
    + intros (q' & Hq' & Hs). apply elem_of_cons in Hq' as [-> | Hq'].
      * rewrite Hs in Hstep. injection Hstep as <-. apply list_elem_of_here.
      * assert ((k, l) ∈ a0) by (apply IH; eauto).
        destruct a; [now apply list_elem_of_further | assumption].
Qed.

(** X2. After the loop over the questions of a record, an entry of the
    dictionary is either an entry it had before or the text and the answer
    list of one of the questions; every question with a non-empty text and
    a non-empty answer list has its text among the keys; and no key is ever
    removed. *)
Theorem questions_loop_entries (questions : list json)
  (output output' : gmap str (list str)) :
  questions_loop keep_markup questions output = Ok output' ->
  (forall k l, output' !! k = Some l ->
     output !! k = Some l
     \/ exists question, question ∈ questions
          /\ build_question_text keep_markup question = Ok k
          /\ collect_answers keep_markup question k = Ok l)
  /\ (forall question k l, question ∈ questions ->
        build_question_text keep_markup question = Ok k ->
        collect_answers keep_markup question k = Ok l ->
        k <> [] -> l <> [] -> is_Some (output' !! k))
  /\ (forall k, is_Some (output !! k) -> is_Some (output' !! k)).
Proof.
  rewrite questions_loop_stores. intros H. bind_inv H. injection H as <-.
  rename a into ws. split; [|split].
  - intros k l Hl. apply apply_stores_origin in Hl as [Hl | Hl]; [now left|].
    right. apply (questions_stores_elem _ _ _ _ Hstep) in Hl as (q & Hq & Hs).
    apply question_store_Some in Hs as (Ht & Ha & _). eauto.
  - intros q k l Hq Ht Ha Hk Hl. apply (apply_stores_has _ _ k l).
    apply (questions_stores_elem _ _ _ _ Hstep). exists q. split; [assumption|].
    apply question_store_Some. auto.
  - intros k. apply apply_stores_keeps.
Qed.

Lemma questions_stores_answers questions ws :
  questions_stores keep_markup questions = Ok ws ->
  Forall (fun kv : str * list str => Forall (fun a => a <> []) kv.2) ws.
Proof.
  intros H. apply Forall_forall. intros [k l] Hin.
  apply (questions_stores_elem _ _ _ _ H) in Hin as (q & _ & Hs).
  apply question_store_Some in Hs as (_ & Ha & _).
  simpl. eapply collect_answers_nonempty; eassumption.
Qed.

Lemma website_stores_answers content ws :
  website_stores only_english keep_markup content = Ok ws ->
  Forall (fun kv : str * list str => Forall (fun a => a <> []) kv.2) ws.
Proof.
  unfold website_stores. intros H. bind_inv H. destruct a.
  - injection H as <-. constructor.
  - bind_inv H. bind_inv H. eapply questions_stores_answers; eassumption.
Qed.

Lemma lines_stores_answers fi ws :
  lines_stores only_english keep_markup fi = Ok ws ->
  Forall (fun kv : str * list str => Forall (fun a => a <> []) kv.2) ws.
Proof.
  revert ws. induction fi as [|line fi IH]; intros ws H; simpl in H.
  - injection H as <-. constructor.
  - bind_inv H. bind_inv H. bind_inv H. injection H as <-.
    apply Forall_app. split; [|now apply IH].
    eapply website_stores_answers; eassumption.
Qed.

(** X3. In the dictionary of a file every key is a non-empty string and
    every value is a non-empty list of non-empty strings. *)
Theorem generated_entries_nonempty (fi : list str)
  (output : gmap str (list str)) (k : str) (l : list str) :
  generate_closed_book_format only_english keep_markup fi = Ok output ->
  output !! k = Some l ->
  k <> [] /\ l <> [] /\ Forall (fun a => a <> []) l.
Proof.
  intros H Hl. apply generate_stores in H as (ws & Hws & Hproper & ->).
  apply apply_stores_origin in Hl as [Hl | Hl];
    [now rewrite lookup_empty in Hl|].
  pose proof (lines_stores_answers _ _ Hws) as Hans.
  rewrite Forall_forall in Hproper, Hans.
  destruct (Hproper _ Hl) as [Hk Hne]. specialize (Hans _ Hl).
  auto.
Qed.

End EntryFacts.

(** ** Files as sequences of lines *)

Section FileFacts.

Context {libs : Libraries}.
Variable only_english : bool.
Variable keep_markup : bool.

Lemma lines_loop_seq (fi1 fi2 : list str) (output : gmap str (list str)) :
  lines_loop only_english keep_markup (fi1 ++ fi2) output
  = lines_loop only_english keep_markup fi1 output
    ≫= lines_loop only_english keep_markup fi2.
Proof.
  revert output. induction fi1 as [|line fi1 IH]; intros o; simpl;
    [reflexivity|].
  destruct (json_loads line) as [content|e]; simpl; [|reflexivity].
  destruct (website_step only_english keep_markup content o) as [o'|e];
    simpl; [apply IH | reflexivity].
Qed.

(** X4. Processing the lines of two files in a row is processing the first
    and then the second from the dictionary the first leaves.  So an
    exception in the first part is the outcome of the whole, and a line that
    does not parse ends the run with the exception of the parser, whatever
    was gathered before it and whatever follows. *)
Theorem lines_loop_app (fi1 fi2 : list str) (output : gmap str (list str)) :
  lines_loop only_english keep_markup (fi1 ++ fi2) output
  = lines_loop only_english keep_markup fi1 output
    ≫= lines_loop only_english keep_markup fi2
  /\ (forall e, lines_loop only_english keep_markup fi1 output = Raise e ->
        lines_loop only_english keep_markup (fi1 ++ fi2) output = Raise e)
  /\ (forall website e output',
        lines_loop only_english keep_markup fi1 output = Ok output' ->
        json_loads website = Raise e ->
        lines_loop only_english keep_markup (fi1 ++ website :: fi2) output
        = Raise e).
Proof.
  split; [apply lines_loop_seq | split].
  - intros e H. now rewrite lines_loop_seq, H.
  - intros website e output' H Hbad. rewrite lines_loop_seq, H. simpl.
    now rewrite Hbad.
Qed.

Lemma lines_loop_union (fi : list str) (output o : gmap str (list str)) :
  generate_closed_book_format only_english keep_markup fi = Ok o ->
  lines_loop only_english keep_markup fi output = Ok (o ∪ output).
Proof.
  unfold generate_closed_book_format. rewrite !lines_loop_stores.
  intros H. bind_inv H. injection H as <-. rewrite Hstep. simpl.
  now rewrite apply_stores_union.
Qed.

(** X5. The dictionary of two files put end to end is the dictionary of the
    second laid over the dictionary of the first: a key of both keeps the
    list it has in the second, every other entry of either is kept. *)
Theorem generate_app (fi1 fi2 : list str) (o1 o2 : gmap str (list str)) :
  generate_closed_book_format only_english keep_markup fi1 = Ok o1 ->
  generate_closed_book_format only_english keep_markup fi2 = Ok o2 ->
  generate_closed_book_format only_english keep_markup (fi1 ++ fi2)
  = Ok (o2 ∪ o1).
Proof.
  intros H1 H2. unfold generate_closed_book_format in *.
  rewrite lines_loop_seq, H1. simpl. now apply lines_loop_union.
Qed.

(** X6. Repeating the lines of a file changes nothing: the file followed by
    itself gives the dictionary, or the exception, of the file alone. *)
Theorem generate_twice_same (fi : list str) :
  generate_closed_book_format only_english keep_markup (fi ++ fi)
  = generate_closed_book_format only_english keep_markup fi.
Proof.
  destruct (generate_closed_book_format only_english keep_markup fi)
    as [o|e] eqn:E.
  - unfold generate_closed_book_format. rewrite lines_loop_seq.
    unfold generate_closed_book_format in E. rewrite E. simpl.
    rewrite (lines_loop_union fi o o E). now rewrite (idemp_L (∪)).
  - unfold generate_closed_book_format in *. now rewrite lines_loop_seq, E.
Qed.

End FileFacts.

(** ** The language filter *)

Section LanguageFacts.

Context {libs : Libraries}.
Variable keep_markup : bool.

Lemma website_step_tagged (content lang : json)
  (output : gmap str (list str)) :
  getitem content (lit "Fasttext_language") = Ok lang ->
  website_step true keep_markup content output
  = if english content then website_step false keep_markup content output
    else Ok output.
Proof.
  intros H. unfold website_step, english. rewrite H. simpl.
  now destruct (ne_str lang (lit "en")).
Qed.

(** X7. Under [only_english] a record whose language tag is not the string
    [en] is passed over whatever else it holds, also when [Questions] is
    missing or is not a list; and for a file whose lines all parse to records
    with a language tag, the run is the run without [only_english] on the
    lines tagged [en]. *)
Theorem only_english_filters :
  (forall (fields : gmap str json) (lang : json)
          (output : gmap str (list str)),
      fields !! lit "Fasttext_language" = Some lang ->
      lang <> JStr (lit "en") ->
      website_step true keep_markup (JObj fields) output = Ok output)
  /\ (forall fi : list str,
         Forall tagged_line fi ->
         generate_closed_book_format true keep_markup fi
         = generate_closed_book_format false keep_markup
             (List.filter english_line fi)).
Proof.
  split.
  - intros fields lang output Hlang Hne.
    rewrite (website_step_tagged _ lang) by (simpl; now rewrite Hlang).
    unfold english. simpl. rewrite Hlang.
    destruct lang as [| | |s| |]; try reflexivity. simpl.
    rewrite bool_decide_eq_false_2; [reflexivity|]. congruence.
  - intros fi Hfi. unfold generate_closed_book_format.
    generalize (∅ : gmap str (list str)).
    induction Hfi as [|line fi (content & lang & Hload & Htag) _ IH];
      intros output; [reflexivity|].
    cbn [lines_loop List.filter]. unfold english_line at 1.
    rewrite Hload. simpl.
    rewrite (website_step_tagged _ lang _ Htag).
    destruct (english content).
    + cbn [lines_loop]. rewrite Hload. simpl.
      destruct (website_step false keep_markup content output); simpl;
        [apply IH | reflexivity].
    + simpl. apply IH.
Qed.

End LanguageFacts.

(** ** The fields that are read *)

Section FieldFacts.

Context {libs : Libraries}.
Variable only_english : bool.
Variable keep_markup : bool.

Lemma question_field_agree (f1 f2 : gmap str json) (field sep : str) :
  f1 !! field = f2 !! field ->
  question_field keep_markup (JObj f1) field sep
  = question_field keep_markup (JObj f2) field sep.
Proof. intros H. unfold question_field. simpl. now rewrite H. Qed.

(** X8. Only the fields that are read matter.  Two answers with the same
    [text_markup], two questions with the same [name_markup],
    [text_markup] and [Answers], two records with the same
    [Fasttext_language] and [Questions] are treated alike, whatever other
    fields they carry. *)
Theorem other_fields_ignored :
  (forall (f1 f2 : gmap str json) (answer_list : list str),
      f1 !! lit "text_markup" = f2 !! lit "text_markup" ->
      answer_step keep_markup (JObj f1) answer_list
      = answer_step keep_markup (JObj f2) answer_list)
  /\ (forall (f1 f2 : gmap str json) (output : gmap str (list str)),
         f1 !! lit "name_markup" = f2 !! lit "name_markup" ->
         f1 !! lit "text_markup" = f2 !! lit "text_markup" ->
         f1 !! lit "Answers" = f2 !! lit "Answers" ->
         question_step keep_markup (JObj f1) output
         = question_step keep_markup (JObj f2) output)
  /\ (forall (f1 f2 : gmap str json) (output : gmap str (list str)),
         f1 !! lit "Fasttext_language" = f2 !! lit "Fasttext_language" ->
         f1 !! lit "Questions" = f2 !! lit "Questions" ->
         website_step only_english keep_markup (JObj f1) output
         = website_step only_english keep_markup (JObj f2) output).
Proof.
  split; [|split].
  - intros f1 f2 answer_list H. unfold answer_step. simpl. now rewrite H.
  - intros f1 f2 output Hn Ht Ha.
    unfold question_step, build_question_text.
    rewrite (question_field_agree f1 f2 _ _ Hn).
    rewrite (question_field_agree f1 f2 _ _ Ht).
    unfold collect_answers. simpl. now rewrite Ha.
  - intros f1 f2 output Hl Hq. unfold website_step. simpl.
    now rewrite Hl, Hq.
Qed.

(** X9. Values of the wrong type raise.  A question that is not an object
    raises [AttributeError] at its first key test, a markup field that is
    present and does not hold a string raises [AttributeError] at the first
    [replace], a record that is not an object raises [TypeError] when it is
    indexed, and a [Questions] field that holds [null], a boolean or a number
    raises [TypeError] when it is iterated. *)
Theorem wrong_types_raise :
  (forall question (output : gmap str (list str)),
      not_object question ->
      question_step keep_markup question output
      = Raise (AttributeError (lit "keys")))
  /\ (forall (fields : gmap str json) (v : json)
             (output : gmap str (list str)),
         fields !! lit "name_markup" = Some v -> not_string v ->
         question_step keep_markup (JObj fields) output
         = Raise (AttributeError (lit "replace")))
  /\ (forall content (output : gmap str (list str)),
         not_object content ->
         website_step only_english keep_markup content output
         = Raise TypeError)
  /\ (forall (fields : gmap str json) (v : json)
             (output : gmap str (list str)),
         fields !! lit "Questions" = Some v ->
         not_object v -> not_string v ->
         (forall items, v <> JArr items) ->
         website_step false keep_markup (JObj fields) output
         = Raise TypeError).
Proof.
  repeat apply conj.
  - intros question output H. destruct question; try reflexivity.
    contradiction.
  - intros fields v output Hv Hs.
    unfold question_step, build_question_text, question_field. simpl.
    rewrite Hv. simpl. destruct v; try reflexivity. contradiction.
  - intros content output H. unfold website_step.
    destruct content; try contradiction; now destruct only_english.
  - intros fields v output Hv Ho Hs Ha. unfold website_step. simpl.
    rewrite Hv. simpl.
    destruct v; try reflexivity; try contradiction.
    now destruct (Ha items).
Qed.

(** X10. A question with no usable [name_markup] and a [text_markup] that
    normalises to a string has exactly that string as its text: no space is
    put before it. *)
Theorem text_segment_alone (fields : gmap str json) (v : json) (t : str) :
  unusable_field keep_markup fields (lit "name_markup") ->
  fields !! lit "text_markup" = Some v ->
  extract_text_value v keep_markup = Ok (Some t) ->
  build_question_text keep_markup (JObj fields) = Ok t.
Proof.
  intros Hn Hf Hv. unfold build_question_text.
  rewrite (question_field_unusable keep_markup _ _ _ Hn). simpl.
  rewrite (question_field_usable keep_markup _ _ _ v t Hf Hv). simpl.
  now rewrite app_nil_r.
Qed.

End FieldFacts.

(** ** More on the normaliser *)

Section NormalizerMore.

Context {libs : Libraries}.

(** X11. Line breaks in the input are of no consequence: two inputs that
    are equal once their newline and carriage-return characters are removed
    have the same result, so such a character can be dropped anywhere, and
    removing them beforehand changes nothing. *)
Theorem line_breaks_ignored :
  (forall x y keep_markup,
      strip_newlines x = strip_newlines y ->
      extract_text x keep_markup = extract_text y keep_markup)
  /\ (forall a b c keep_markup,
         c = LF \/ c = CR ->
         extract_text (a ++ c :: b) keep_markup
         = extract_text (a ++ b) keep_markup)
  /\ (forall x keep_markup,
         extract_text (strip_newlines x) keep_markup
         = extract_text x keep_markup).
Proof.
  assert (H : forall x y keep_markup,
             strip_newlines x = strip_newlines y ->
             extract_text x keep_markup = extract_text y keep_markup).
  { intros x y keep_markup E. unfold extract_text. simpl. now rewrite E. }
  split; [exact H | split].
  - intros a b c keep_markup Hc. apply H.
    rewrite !strip_newlines_app. f_equal.
    change (c :: b) with ([c] ++ b). rewrite strip_newlines_app.
    now destruct Hc as [-> | ->].
  - intros x keep_markup. apply H, strip_newlines_idemp.
Qed.

(** X12. With [keep_markup], an input without an ampersand comes back as it
    is, tags included, less its newline and carriage-return characters, of
    which the result has none. *)
Theorem keep_markup_verbatim (x : str) :
  AMP ∉ x ->
  extract_text x true = Ok (Some (strip_newlines x))
  /\ (LF ∉ strip_newlines x) /\ (CR ∉ strip_newlines x).
Proof.
  intros H. split; [|apply strip_newlines_clean].
  rewrite extract_text_markup, html_unescape_no_amp; [reflexivity|].
  now apply existsb_amp_absent, strip_newlines_keeps_absent.
Qed.

(** X13. What line 34 produces is ASCII throughout, so that its bytes
    always decode; and a text that is ASCII already is left as it is. *)
Theorem xmlcharrefreplace_is_ascii (s : str) :
  Forall (fun c => c < 128) (xmlcharrefreplace s)
  /\ (Forall (fun c => c < 128) s -> xmlcharrefreplace s = s).
Proof.
  split; [|apply xmlcharrefreplace_ascii].
  induction s as [|c s IH]; [constructor|].
  change (xmlcharrefreplace (c :: s))
    with (xmlcharref c ++ xmlcharrefreplace s).
  apply Forall_app. split; [|assumption].
  unfold xmlcharref. destruct (c <? 128) eqn:E.
  - apply N.ltb_lt in E. now repeat constructor.
  - repeat (apply Forall_cons; split; [unfold AMP, HASH; lia|]).
    apply Forall_app. split; [apply str_of_int_ascii|].
    repeat constructor.
Qed.

End NormalizerMore.

(** ** More on the driver *)

Section DriverMore.

Context {libs : Libraries} {sys : System}.

(** X15. The list of tasks has one pair of paths for each listed file, in
    the order of the listing: the file name joined to [input_folder] and the
    same name joined to [output_folder]. *)
Theorem task_list_pairs (args : gmap str value) (filenames : list str)
  (files : list (value * value)) :
  task_list args filenames = Ok files ->
  Forall2 (fun filename paths =>
             exists input_folder output_folder,
               getattr args (lit "input_folder") = Ok input_folder
               /\ getattr args (lit "output_folder") = Ok output_folder
               /\ os_path_join input_folder filename = Ok paths.1
               /\ os_path_join output_folder filename = Ok paths.2)
    filenames files.
Proof.
  revert files. induction filenames as [|filename rest IH]; intros files H;
    simpl in H.
  - injection H as <-. constructor.
  - bind_inv H. bind_inv H. bind_inv H. bind_inv H. bind_inv H.
    injection H as <-. constructor; [|now apply IH].
    exists a, a1. auto.
Qed.


End DriverMore.

(** ** The further properties on the samples *)

Lemma questions_loop_entries_witness :
  @questions_loop plain_libs false
    [ q_text (lit "Q") [mk_answer (lit "A1")];
      q_text (lit "Q") [mk_answer (lit "A2")] ] ∅
  = Ok {[ lit "Q" := [lit "A2"] ]}
  /\ is_Some (({[ lit "Q" := [lit "A2"] ]} : gmap str (list str)) !! lit "Q").
Proof.
  assert (H : @questions_loop plain_libs false
                [ q_text (lit "Q") [mk_answer (lit "A1")];
                  q_text (lit "Q") [mk_answer (lit "A2")] ] ∅
              = Ok {[ lit "Q" := [lit "A2"] ]})
    by (vm_compute; reflexivity).
  split; [exact H|].
  destruct (@questions_loop_entries plain_libs false _ _ _ H) as (_ & H2 & _).
  apply (H2 (q_text (lit "Q") [mk_answer (lit "A1")]) (lit "Q") [lit "A1"]);
    try reflexivity; try discriminate.
  repeat constructor.
Defined.

Lemma generated_entries_nonempty_witness :
  plain_generate true false [lit "twice"] = Ok {[ lit "Q" := [lit "A2"] ]}
  /\ lit "Q" <> [] /\ [lit "A2"] <> []
  /\ Forall (fun a : str => a <> []) [lit "A2"].
Proof.
  assert (H : plain_generate true false [lit "twice"]
              = Ok {[ lit "Q" := [lit "A2"] ]})
    by (vm_compute; reflexivity).
  split; [exact H|].
  apply (@generated_entries_nonempty plain_libs true false _ _ _ _ H).
  reflexivity.
Defined.

Lemma lines_loop_app_witness :
  @lines_loop sample_libs true false
    ([lit "capital-en"] ++ lit "not json" :: [lit "twice"]) ∅
  = Raise (LibraryError 0).
Proof.
  apply (proj2 (proj2 (@lines_loop_app sample_libs true false
                         [lit "capital-en"] [lit "twice"] ∅))
           (lit "not json") (LibraryError 0)
           {[ lit "Capital of France?" := [lit "Paris"] ]});
    vm_compute; reflexivity.
Defined.

Lemma generate_app_witness :
  sample_generate true false ([lit "capital-en"] ++ [lit "twice"])
  = Ok ({[ lit "Q" := [lit "A2"] ]}
        ∪ {[ lit "Capital of France?" := [lit "Paris"] ]}).
Proof.
  apply (@generate_app sample_libs true false); vm_compute; reflexivity.
Defined.

Lemma only_english_filters_witness :
  Forall (@tagged_line sample_libs) [lit "capital-en"; lit "capital-fr"]
  /\ sample_generate true false [lit "capital-en"; lit "capital-fr"]
     = sample_generate false false
         (List.filter (@english_line sample_libs)
            [lit "capital-en"; lit "capital-fr"]).
Proof.
  assert (H : Forall (@tagged_line sample_libs)
                [lit "capital-en"; lit "capital-fr"]).
  { repeat constructor; do 2 eexists; split; reflexivity. }
  split; [exact H|].
  exact (proj2 (@only_english_filters sample_libs false) _ H).
Defined.

Lemma other_fields_ignored_witness :
  @question_step sample_libs false
    (mk_question [ (lit "text_markup", JStr (lit "Q"));
                   (lit "upvote_count", JNum 3 0) ]
       [mk_answer (lit "A1")]) ∅
  = @question_step sample_libs false
      (q_text (lit "Q") [mk_answer (lit "A1")]) ∅.
Proof.
  apply (proj1 (proj2 (@other_fields_ignored sample_libs true false)));
    reflexivity.
Defined.

Lemma wrong_types_raise_witness :
  @question_step sample_libs false
    (mk_question [(lit "name_markup", JNum 3 0)] [mk_answer (lit "A1")]) ∅
  = Raise (AttributeError (lit "replace")).
Proof.
  apply (proj1 (proj2 (@wrong_types_raise sample_libs true false))
           _ (JNum 3 0)); [reflexivity | exact I].
Defined.

Lemma text_segment_alone_witness :
  @build_question_text sample_libs false
    (q_text (lit "of France?") [mk_answer (lit "Paris")])
  = Ok (lit "of France?").
Proof.
  apply (@text_segment_alone sample_libs false _
           (JStr (lit "of France?")) (lit "of France?")).
  - left. reflexivity.
  - reflexivity.
  - reflexivity.
Defined.

Lemma line_breaks_ignored_witness :
  @extract_text sample_libs (lit "<b>Hi</b>" ++ LF :: lit " there") false
  = @extract_text sample_libs (lit "<b>Hi</b>" ++ lit " there") false.
Proof.
  apply (proj1 (proj2 (@line_breaks_ignored sample_libs))).
  left. reflexivity.
Defined.

Lemma keep_markup_verbatim_witness :
  @extract_text sample_libs (lit "<b>Hi</b>" ++ LF :: lit " there") true
  = Ok (Some (lit "<b>Hi</b> there")).
Proof.
  apply (@keep_markup_verbatim sample_libs
           (lit "<b>Hi</b>" ++ LF :: lit " there")).
  compute_done.
Defined.

Lemma xmlcharrefreplace_is_ascii_witness :
  xmlcharrefreplace (lit "Paris") = lit "Paris".
Proof.
  apply (proj2 (xmlcharrefreplace_is_ascii (lit "Paris"))).
  repeat constructor.
Defined.

Lemma task_list_pairs_witness :
  @task_list sample_system
    (parse_args (VStr (lit "in")) (VStr (lit "out")) true false 1)
    [lit "a.json"]
  = Ok [(VStr (lit "in/a.json"), VStr (lit "out/a.json"))]
  /\ Forall2 (fun filename paths =>
               exists input_folder output_folder,
                 getattr
                   (parse_args (VStr (lit "in")) (VStr (lit "out"))
                      true false 1) (lit "input_folder") = Ok input_folder
                 /\ getattr
                      (parse_args (VStr (lit "in")) (VStr (lit "out"))
                         true false 1) (lit "output_folder")
                    = Ok output_folder
                 /\ @os_path_join sample_system input_folder filename
                    = Ok paths.1
                 /\ @os_path_join sample_system output_folder filename
                    = Ok paths.2)
       [lit "a.json"] [(VStr (lit "in/a.json"), VStr (lit "out/a.json"))].
Proof.
  assert (H : @task_list sample_system
                (parse_args (VStr (lit "in")) (VStr (lit "out")) true false 1)
                [lit "a.json"]
              = Ok [(VStr (lit "in/a.json"), VStr (lit "out/a.json"))])
    by (vm_compute; reflexivity).
  split; [exact H|].
  exact (@task_list_pairs sample_system _ _ _ H).
Defined.


(** The worker on the one readable sample file. *)
Example worker_sample :
  @worker sample_libs sample_system true false
    (VStr (lit "in/a.json"), VStr (lit "out/a.json")) ∅
  = (Ok tt,
     {[ lit "out/a.json" := {[ lit "Capital of France?" := [lit "Paris"] ]} ]}).
Proof. vm_compute. reflexivity. Qed.
